(** * The gateway in front of an OpenAI-compatible inference server

    Shallow embedding of [gateway/src/backends/model_registry.py],
    [gateway/src/backends/vllm_client.py] and the completion handler of
    [gateway/src/main.py], followed by the properties of the model
    registry, the streaming relay and the request router.

    Conventions.
    - A Python value that comes out of a JSON document is a [json].  Python's
      [None] is [JNull].  JSON numbers are the integer ones.
    - A Python [str] is a [string] read as its UTF-8 bytes; [bytes] is
      [list byte].
    - Clock readings, the TTL and the retry delay are integers in one fixed
      unit (the source holds seconds in floats).
    - An [async def] is a computation of the monad [M]: it threads the
      registry and the log of what was done to the outside world, and ends
      with a value or with a raised exception.  Whatever was done before a
      raise stays done. *)

From Stdlib Require Import List String Ascii ZArith Bool Arith Lia.
From Stdlib Require Import Strings.Byte.
From Stdlib Require Import Relations.Relation_Operators.
Import ListNotations.

Set Warnings "-register-all".

Local Open Scope string_scope.
Local Open Scope Z_scope.

(** ** Python values *)

Module Py.

Inductive json : Type :=
| JNull
| JBool (b : bool)
| JNum (n : Z)
| JStr (s : string)
| JArr (items : list json)
| JObj (fields : list (string * json)).

(** The exceptions the modelled code can meet. *)
Inductive exn : Type :=
| AttributeError
| TypeError
| JSONDecodeError
| HTTPStatusError (status : Z)
| IndexError
| KeyError
| TransportError.

Inductive outcome (A : Type) : Type :=
| Ret (a : A)
| Raise (e : exn).
Arguments Ret {A} a.
Arguments Raise {A} e.

(** [bool(v)] *)
Definition truthy (v : json) : bool :=
  match v with
  | JNull => false
  | JBool b => b
  | JNum n => negb (n =? 0)
  | JStr s => negb (String.eqb s "")
  | JArr l => match l with [] => false | _ => true end
  | JObj f => match f with [] => false | _ => true end
  end.

(** [a or b] *)
Definition py_or (a b : json) : json := if truthy a then a else b.

(** A dict is the list of its items, first binding of a key wins. *)
Fixpoint lookup (k : string) (d : list (string * json)) : option json :=
  match d with
  | [] => None
  | (k', v) :: d' => if String.eqb k k' then Some v else lookup k d'
  end.

(** [k in d] *)
Definition has_key (k : string) (d : list (string * json)) : bool :=
  match lookup k d with Some _ => true | None => false end.

(** [d.get(k)] *)
Definition dict_get (k : string) (d : list (string * json)) : json :=
  match lookup k d with Some v => v | None => JNull end.

(** [d.get(k, dflt)] *)
Definition dict_get_default (k : string) (dflt : json)
    (d : list (string * json)) : json :=
  match lookup k d with Some v => v | None => dflt end.

(** [d[k] = v]: an existing key keeps its place, a new one goes last. *)
Fixpoint dict_set (k : string) (v : json) (d : list (string * json))
    : list (string * json) :=
  match d with
  | [] => [(k, v)]
  | (k', v') :: d' =>
      if String.eqb k k' then (k', v) :: d' else (k', v') :: dict_set k v d'
  end.

(** [d.setdefault(k, v)] (the returned value is not used by the gateway). *)
Definition dict_setdefault (k : string) (v : json) (d : list (string * json))
    : list (string * json) :=
  if has_key k d then d else dict_set k v d.

(** [v.get(k)] on an arbitrary value: only a dict has the method. *)
Definition py_get (v : json) (k : string) : outcome json :=
  match v with
  | JObj d => Ret (dict_get k d)
  | _ => Raise AttributeError
  end.

(** [v.get(k, dflt)] on an arbitrary value. *)
Definition py_get_default (v : json) (k : string) (dflt : json) : outcome json :=
  match v with
  | JObj d => Ret (dict_get_default k dflt d)
  | _ => Raise AttributeError
  end.

(** The value of a number-like operand of [==] ([True == 1]). *)
Definition as_number (v : json) : option Z :=
  match v with
  | JNum n => Some n
  | JBool b => Some (if b then 1 else 0)
  | _ => None
  end.

(** [a == b] *)
Fixpoint py_eq (a b : json) {struct a} : bool :=
  match a, b with
  | JNull, JNull => true
  | JStr s, JStr t => String.eqb s t
  | JArr la, JArr lb =>
      (fix all2 (la lb : list json) {struct la} : bool :=
         match la, lb with
         | [], [] => true
         | x :: la', y :: lb' => py_eq x y && all2 la' lb'
         | _, _ => false
         end) la lb
  | JObj fa, JObj fb =>
      (List.length fa =? List.length fb)%nat &&
      (fix sub (fa : list (string * json)) {struct fa} : bool :=
         match fa with
         | [] => true
         | (k, v) :: fa' =>
             match lookup k fb with
             | Some w => py_eq v w
             | None => false
             end && sub fa'
         end) fa
  | (JNum _ | JBool _), (JNum _ | JBool _) =>
      match as_number a, as_number b with
      | Some m, Some n => m =? n
      | _, _ => false
      end
  | _, _ => false
  end.

(** [x in xs] for a list [xs] *)
Definition py_in (x : json) (xs : list json) : bool :=
  existsb (fun y => py_eq x y) xs.

(** [for m in v]: the items a [for] loop visits, or [TypeError]. *)
Fixpoint chars (s : string) : list json :=
  match s with
  | EmptyString => []
  | String c s' => JStr (String c EmptyString) :: chars s'
  end.

Definition py_iter (v : json) : outcome (list json) :=
  match v with
  | JArr l => Ret l
  | JObj d => Ret (map (fun kv => JStr (fst kv)) d)
  | JStr s => Ret (chars s)
  | _ => Raise TypeError
  end.

(** [str.lower()]: on the UTF-8 bytes only the letters A-Z change. *)
Definition lower_ascii (c : ascii) : ascii :=
  let n := nat_of_ascii c in
  if ((65 <=? n) && (n <=? 90))%nat then ascii_of_nat (n + 32) else c.

Fixpoint lower (s : string) : string :=
  match s with
  | EmptyString => EmptyString
  | String c s' => String (lower_ascii c) (lower s')
  end.

(** [v.lower()] on an arbitrary value: only a [str] has the method. *)
Definition py_lower (v : json) : outcome string :=
  match v with
  | JStr s => Ret (lower s)
  | _ => Raise AttributeError
  end.

(** [pat in s] for strings *)
Fixpoint starts_with (pat s : string) : bool :=
  match pat, s with
  | EmptyString, _ => true
  | String a pat', String b s' => Ascii.eqb a b && starts_with pat' s'
  | String _ _, EmptyString => false
  end.

Fixpoint contains (pat s : string) : bool :=
  starts_with pat s ||
  match s with
  | EmptyString => false
  | String _ s' => contains pat s'
  end.

End Py.

(** ** The outside world and the monad of [async def] bodies *)

Module Eff.
Import Py.

(** What an HTTP call to the upstream yields: [r.status_code], [r.text] and
    the value of [r.json()] ([None] when the body is not JSON and [r.json()]
    raises). *)
Record response : Type := {
  status_code : Z;
  text : string;
  body_json : option json
}.

Inductive reply : Type :=
| Answered (r : response)
| Unreachable.

(** What the gateway did to the outside world, oldest last. *)
Inductive event : Type :=
| EvTime
| EvGet (url : string)
| EvPost (url : string) (payload : json)
| EvSleep (d : Z)
| EvPrint (e : exn).

(** The outside world answers as a function of everything done so far, the
    request just made included. *)
Record upstream : Type := {
  clock : list event -> Z;
  serve : list event -> reply
}.

(** The attributes of [ModelRegistry] ([_lock] is the subject of [Gate]). *)
Record ModelRegistry : Type := {
  base_url : string;
  ttl_sec : Z;
  retries : Z;
  retry_delay_sec : Z;
  _models : list json;
  _last_fetch : Z
}.

Record world : Type := {
  registry : ModelRegistry;
  log : list event
}.

Definition M (A : Type) : Type := world -> outcome A * world.

Definition ret {A} (a : A) : M A := fun w => (Ret a, w).

Definition bind {A B} (c : M A) (k : A -> M B) : M B :=
  fun w =>
    match c w with
    | (Ret a, w') => k a w'
    | (Raise e, w') => (Raise e, w')
    end.

Definition raise {A} (e : exn) : M A := fun w => (Raise e, w).

(** A pure step that may raise. *)
Definition lift {A} (o : outcome A) : M A := fun w => (o, w).

(** [try: c / except Exception as e: h e], followed in both cases by what
    the two branches continue with. *)
Definition try_except {A B} (c : M A) (ok : A -> M B) (h : exn -> M B) : M B :=
  fun w =>
    match c w with
    | (Ret a, w') => ok a w'
    | (Raise e, w') => h e w'
    end.

Definition do_event (ev : event) : M unit :=
  fun w => (Ret tt, {| registry := registry w; log := ev :: log w |}).

Definition get_registry : M ModelRegistry := fun w => (Ret (registry w), w).

Definition set_models (ids : list json) : M unit :=
  fun w =>
    let r := registry w in
    (Ret tt,
     {| registry := {| base_url := base_url r; ttl_sec := ttl_sec r;
                       retries := retries r;
                       retry_delay_sec := retry_delay_sec r;
                       _models := ids; _last_fetch := _last_fetch r |};
        log := log w |}).

Definition set_last_fetch (t : Z) : M unit :=
  fun w =>
    let r := registry w in
    (Ret tt,
     {| registry := {| base_url := base_url r; ttl_sec := ttl_sec r;
                       retries := retries r;
                       retry_delay_sec := retry_delay_sec r;
                       _models := _models r; _last_fetch := t |};
        log := log w |}).

Section Primitives.
Variable U : upstream.

(** [time.time()] *)
Definition time_time : M Z :=
  fun w => (Ret (clock U (log w)),
            {| registry := registry w; log := EvTime :: log w |}).

Definition answer (w : world) : outcome response * world :=
  match serve U (log w) with
  | Answered r => (Ret r, w)
  | Unreachable => (Raise TransportError, w)
  end.

(** [await client.get(url)] *)
Definition http_get (url : string) : M response :=
  bind (do_event (EvGet url)) (fun _ => answer).

(** [await client.post(url, json=payload, headers=...)] *)
Definition http_post (url : string) (payload : json) : M response :=
  bind (do_event (EvPost url payload)) (fun _ => answer).

(** [await asyncio.sleep(d)] *)
Definition sleep (d : Z) : M unit := do_event (EvSleep d).

(** [print(f"[gateway] WARN: ... {e}")] *)
Definition print_warning (e : exn) : M unit := do_event (EvPrint e).

End Primitives.

(** [r.raise_for_status()]: httpx raises unless the status is 2xx. *)
Definition is_success (status : Z) : bool :=
  (200 <=? status) && (status <=? 299).

Definition check_status (status : Z) : outcome unit :=
  if is_success status then Ret tt else Raise (HTTPStatusError status).

Definition raise_for_status (r : response) : outcome unit :=
  check_status (status_code r).

(** [r.json()] *)
Definition response_json (r : response) : outcome json :=
  match body_json r with
  | Some j => Ret j
  | None => Raise JSONDecodeError
  end.

End Eff.

Declare Scope eff_scope.
Delimit Scope eff_scope with eff.
Notation "x <- c ;; k" := (Eff.bind c (fun x => k))
  (at level 61, c at next level, right associativity) : eff_scope.
Notation "c ;; k" := (Eff.bind c (fun _ => k))
  (at level 61, right associativity) : eff_scope.

(** ** backends/model_registry.py *)

Module Registry.
Import Py Eff.
Local Open Scope eff_scope.

(** [[m["id"] for m in items if isinstance(m, dict) and "id" in m]] *)
Fixpoint ids_of (items : list json) : list json :=
  match items with
  | [] => []
  | m :: rest =>
      match m with
      | JObj d => if has_key "id" d then dict_get "id" d :: ids_of rest
                  else ids_of rest
      | _ => ids_of rest
      end
  end.

(** The part of [_fetch_models] after the GET. *)
Definition parse_models (r : response) : outcome (list json) :=
  match raise_for_status r with
  | Raise e => Raise e
  | Ret _ =>
      match response_json r with
      | Raise e => Raise e
      | Ret data =>
          match py_get_default data "data" (JArr []) with
          | Raise e => Raise e
          | Ret listing =>
              match py_iter listing with
              | Raise e => Raise e
              | Ret items => Ret (ids_of items)
              end
          end
      end
  end.

(** [_is_model_not_found_404] *)
Definition _is_model_not_found_404 (resp_json : json) : outcome bool :=
  match py_get resp_json "error" with
  | Raise e => Raise e
  | Ret e0 =>
      let err := py_or e0 (JObj []) in
      match py_get err "code" with
      | Raise e => Raise e
      | Ret code =>
          match py_get err "message" with
          | Raise e => Raise e
          | Ret m0 =>
              match py_lower (py_or m0 (JStr "")) with
              | Raise e => Raise e
              | Ret msg =>
                  Ret (py_eq code (JNum 404)
                       || contains "does not exist" msg
                       || contains "not found" msg)
              end
          end
      end
  end.

(** The candidates of [resolve_model], in order. *)
Definition candidates (requested default_model : json) : list json :=
  (if truthy requested then [requested] else []) ++
  (if truthy default_model then [default_model] else []).

(** [for c in candidates: if c in models: return c] *)
Fixpoint first_known (cands models : list json) : option json :=
  match cands with
  | [] => None
  | c :: rest => if py_in c models then Some c else first_known rest models
  end.

(** The body of [resolve_model] below the snapshot. *)
Definition resolve_in (models : list json) (requested default_model : json)
    : json :=
  match first_known (candidates requested default_model) models with
  | Some c => c
  | None =>
      match models with
      | m0 :: _ => m0
      | [] =>
          if truthy requested then requested
          else if truthy default_model then default_model
          else JStr ""
      end
  end.

Section WithUpstream.
Variable U : upstream.

(** [_fetch_models] *)
Definition _fetch_models : M (list json) :=
  reg <- get_registry ;;
  r <- http_get U (base_url reg ++ "/v1/models") ;;
  lift (parse_models r).

(** [_is_fresh] *)
Definition _is_fresh : M bool :=
  reg <- get_registry ;;
  if ttl_sec reg <=? 0 then ret false
  else
    now <- time_time U ;;
    ret (now - _last_fetch reg <? ttl_sec reg).

(** [(not force) and self._is_fresh()] *)
Definition fresh_and_unforced (force : bool) : M bool :=
  if negb force then _is_fresh else ret false.

(** [range(max(1, self.retries if force else 1))] *)
Definition attempts (reg : ModelRegistry) (force : bool) : nat :=
  Z.to_nat (Z.max 1 (if force then retries reg else 1)).

(** The [for] loop of [refresh] with [n] rounds to go, and what follows
    it. *)
Fixpoint refresh_loop (force : bool) (n : nat) (last_exc : option exn)
    : M unit :=
  match n with
  | O =>
      match last_exc with
      | Some e => print_warning e
      | None => ret tt
      end
  | S n' =>
      try_except _fetch_models
        (fun ids =>
           (if truthy (JArr ids) then
              set_models ids ;;
              now <- time_time U ;;
              set_last_fetch now
            else ret tt) ;;
           ret tt)
        (fun e =>
           (if force then
              reg <- get_registry ;;
              sleep (retry_delay_sec reg)
            else ret tt) ;;
           refresh_loop force n' (Some e))
  end.

(** [refresh].  One task runs alone here, so it takes [_lock] at once. *)
Definition refresh (force : bool) : M unit :=
  skip <- fresh_and_unforced force ;;
  if skip then ret tt
  else
    skip' <- fresh_and_unforced force ;;
    if skip' then ret tt
    else
      reg <- get_registry ;;
      refresh_loop force (attempts reg force) None.

(** [warmup] *)
Definition warmup : M unit := refresh true.

(** [resolve_model] *)
Definition resolve_model (requested default_model : json) : M json :=
  refresh false ;;
  reg <- get_registry ;;
  let models := _models reg in
  ret (resolve_in models requested default_model).

(** [maybe_retry_on_model_404]; the result [None] is [JNull]. *)
Definition maybe_retry_on_model_404 (resp_status : Z) (resp_json : json)
    (requested default_model : json) : M json :=
  if negb (resp_status =? 404) then ret JNull
  else
    found <- lift (_is_model_not_found_404 (py_or resp_json (JObj []))) ;;
    if negb found then ret JNull
    else
      refresh true ;;
      new_model <- resolve_model requested default_model ;;
      ret (if truthy new_model then new_model else JNull).

End WithUpstream.

End Registry.

(** ** backends/vllm_client.py *)

Module Backend.
Import Py Eff.

Definition chunk : Type := list byte.

Record stream_request : Type := {
  sr_method : string;
  sr_url : string;
  sr_json : json;
  sr_headers : list (string * string)
}.

(** What [client.stream(...)] meets: no connection, or a status line and
    then the chunks [r.aiter_bytes()] hands over, after which the upstream
    closes the connection or the connection is lost. *)
Inductive stream_reply : Type :=
| NoConnection
| Connected (status : Z) (chunks : list chunk) (lost : bool).

(** How an async generator ends. *)
Inductive ending : Type :=
| Exhausted
| Failed (e : exn).

(** [req_headers.update(headers)] *)
Fixpoint header_set (k v : string) (h : list (string * string))
    : list (string * string) :=
  match h with
  | [] => [(k, v)]
  | (k', v') :: h' =>
      if String.eqb k k' then (k', v) :: h' else (k', v') :: header_set k v h'
  end.

Definition headers_update (h extra : list (string * string))
    : list (string * string) :=
  fold_left (fun acc kv => header_set (fst kv) (snd kv) acc) extra h.

(** One resumption of the loop
    [async for chunk in r.aiter_bytes(): if chunk: yield chunk]:
    the chunk yielded and what is still to be read, or [None] at the end
    of the upstream's chunks. *)
Fixpoint next_chunk (pending : list chunk) : option (chunk * list chunk) :=
  match pending with
  | [] => None
  | c :: rest =>
      match c with
      | [] => next_chunk rest
      | _ :: _ => Some (c, rest)
      end
  end.

(** Everything that loop yields. *)
Fixpoint relay (pending : list chunk) : list chunk :=
  match pending with
  | [] => []
  | c :: rest =>
      match c with
      | [] => relay rest
      | _ :: _ => c :: relay rest
      end
  end.

(** The request [stream_openai_sse] opens; [headers] is [[]] for [None]. *)
Definition build_request (base_url path : string) (payload : json)
    (headers : list (string * string)) : stream_request :=
  let url := (base_url ++ path)%string in
  let req_headers := [("Content-Type", "application/json")] in
  let req_headers :=
    match headers with
    | [] => req_headers
    | _ :: _ => headers_update req_headers headers
    end in
  {| sr_method := "POST"; sr_url := url; sr_json := payload;
     sr_headers := req_headers |}.

Section WithUpstream.
Variable stream : stream_request -> stream_reply.

(** [VLLMBackend.stream_openai_sse]: the chunks yielded, then the end. *)
Definition stream_openai_sse (base_url path : string) (payload : json)
    (headers : list (string * string)) : list chunk * ending :=
  match stream (build_request base_url path payload headers) with
  | NoConnection => ([], Failed TransportError)
  | Connected status chunks lost =>
      match check_status status with
      | Raise e => ([], Failed e)
      | Ret _ =>
          (relay chunks, if lost then Failed TransportError else Exhausted)
      end
  end.

End WithUpstream.

End Backend.

(** ** main.py: the completion handler *)

Module Router.
Import Py Eff Registry Backend.
Local Open Scope eff_scope.

(** [os.getenv(name, dflt)] *)
Fixpoint getenv (environ : list (string * string)) (name dflt : string)
    : string :=
  match environ with
  | [] => dflt
  | (k, v) :: rest => if String.eqb name k then v else getenv rest name dflt
  end.

(** [s.rstrip("/")] *)
Fixpoint rstrip_slash (s : string) : string :=
  match s with
  | EmptyString => EmptyString
  | String c s' =>
      match rstrip_slash s' with
      | EmptyString => if Ascii.eqb c "/" then EmptyString
                       else String c EmptyString
      | t => String c t
      end
  end.

Definition path : string := "/v1/chat/completions".

(** What the handler hands back to the framework. *)
Inductive http_result : Type :=
| JSONResponse (content : json) (status : Z)
| StreamingResponse (chunks : list chunk) (fin : ending).

(** Lines 98-102: the model written into the payload. *)
Definition apply_resolved (resolved : json) (default_model : string)
    (payload : list (string * json)) : list (string * json) :=
  if truthy resolved then dict_set "model" resolved payload
  else dict_setdefault "model" (JStr default_model) payload.

(** [len(v)] *)
Definition py_len (v : json) : outcome nat :=
  match v with
  | JArr l => Ret (List.length l)
  | JObj d => Ret (List.length d)
  | JStr s => Ret (String.length s)
  | _ => Raise TypeError
  end.

(** [v[0]]; a dict out of JSON has no key [0]. *)
Definition py_first (v : json) : outcome json :=
  match v with
  | JArr (x :: _) => Ret x
  | JStr (String c _) => Ret (JStr (String c EmptyString))
  | JArr [] | JStr EmptyString => Raise IndexError
  | JObj _ => Raise KeyError
  | _ => Raise TypeError
  end.

(** [[x] + v] *)
Definition py_cons (x : json) (v : json) : outcome json :=
  match v with
  | JArr l => Ret (JArr (x :: l))
  | _ => Raise TypeError
  end.

(** Lines 108-113, with the content of the system message as [note]. *)
Definition inject_policy (environ : list (string * string)) (note : string)
    (payload : list (string * json)) : outcome (list (string * json)) :=
  if String.eqb (getenv environ "FORCE_JA" "1") "1" then
    let msgs := py_or (dict_get "messages" payload) (JArr []) in
    match py_len msgs with
    | Raise e => Raise e
    | Ret n =>
        let headed : outcome bool :=
          if (0 <? n)%nat then
            match py_first msgs with
            | Raise e => Raise e
            | Ret m0 =>
                match py_get m0 "role" with
                | Raise e => Raise e
                | Ret role => Ret (py_eq role (JStr "system"))
                end
            end
          else Ret false in
        match headed with
        | Raise e => Raise e
        | Ret true => Ret (dict_set "messages" msgs payload)
        | Ret false =>
            match py_cons (JObj [("role", JStr "system");
                                 ("content", JStr note)]) msgs with
            | Raise e => Raise e
            | Ret msgs' => Ret (dict_set "messages" msgs' payload)
            end
        end
    end
  else Ret payload.

Section WithUpstream.
Variable U : upstream.
Variable stream : stream_request -> stream_reply.

(** Lines 85-102: the payload with its model settled, and
    [requested_model]. *)
Definition resolve_phase (environ : list (string * string)) (body : json)
    : M (list (string * json) * json * string) :=
  requested_model <- lift (py_get body "model") ;;
  let default_model := getenv environ "DEFAULT_MODEL" "Qwen/Qwen2.5-7B-Instruct" in
  resolved <- resolve_model U requested_model (JStr default_model) ;;
  match body with
  | JObj payload =>
      ret (apply_resolved resolved default_model payload,
           requested_model, default_model)
  | _ => raise AttributeError
  end.

(** Lines 178-181 *)
Definition emit (r : response) : http_result :=
  match body_json r with
  | Some content => JSONResponse content (status_code r)
  | None => JSONResponse (JObj [("raw", JStr (text r))]) (status_code r)
  end.

(** Lines 141-181: the buffered path. *)
Definition buffered (environ : list (string * string))
    (payload : list (string * json)) (requested_model : json)
    (default_model : string) : M http_result :=
  let vllm_url :=
    (rstrip_slash (getenv environ "VLLM_BASE_URL" "http://vllm:8000") ++ path)%string in
  r <- http_post U vllm_url (JObj payload) ;;
  r' <- (if status_code r =? 404 then
           let resp_json :=
             match body_json r with Some j => j | None => JNull end in
           new_model <- maybe_retry_on_model_404 U (status_code r) resp_json
                          requested_model (JStr default_model) ;;
           if truthy new_model
              && negb (py_eq new_model (dict_get "model" payload))
           then http_post U vllm_url (JObj (dict_set "model" new_model payload))
           else ret r
         else ret r) ;;
  ret (emit r').

(** [chat_completions] *)
Definition chat_completions (environ : list (string * string))
    (note : string) (body : json) : M http_result :=
  ph <- resolve_phase environ body ;;
  let '(payload, requested_model, default_model) := ph in
  payload <- lift (inject_policy environ note payload) ;;
  if truthy (dict_get_default "stream" (JBool false) payload) then
    let backend_url :=
      rstrip_slash (getenv environ "VLLM_BASE_URL" "http://vllm:8000") in
    let '(chunks, fin) :=
      stream_openai_sse stream backend_url path (JObj payload) [] in
    ret (StreamingResponse chunks fin)
  else buffered environ payload requested_model default_model.

End WithUpstream.

End Router.

(** ** Construction and start-up *)

Module Setup.
Import Py Eff Registry Router.

(** [(base_url or os.getenv("VLLM_BASE_URL", "http://vllm:8000")).rstrip("/")],
    the address both [ModelRegistry.__init__] and [VLLMBackend.__init__]
    keep. *)
Definition init_base_url (environ : list (string * string))
    (base_url : option string) : string :=
  rstrip_slash
    (match base_url with
     | Some b =>
         if String.eqb b "" then getenv environ "VLLM_BASE_URL" "http://vllm:8000"
         else b
     | None => getenv environ "VLLM_BASE_URL" "http://vllm:8000"
     end).

(** [ModelRegistry.__init__] *)
Definition init_registry (environ : list (string * string))
    (base_url : option string) (ttl_sec : Z) (retries : Z)
    (retry_delay_sec : Z) : ModelRegistry :=
  {| Eff.base_url := init_base_url environ base_url;
     Eff.ttl_sec := ttl_sec;
     Eff.retries := retries;
     Eff.retry_delay_sec := retry_delay_sec;
     _models := [];
     _last_fetch := 0 |}.

(** [on_startup], with what [logger.warning] does as [warn]. *)
Definition on_startup (U : upstream) (warn : exn -> M unit) : M unit :=
  try_except (warmup U) (fun _ => ret tt) warn.

End Setup.

(** ** [refresh] under the event loop

    Several tasks run [refresh] on one registry.  A task runs alone from one
    [await] that suspends it to the next; the loop then resumes any task that
    can go on.  The suspension points of [refresh] are the wait for [_lock]
    when it is held, [client.get] and [asyncio.sleep]. *)

Module Gate.
Import Py Eff Registry.

(** Where a task is suspended. *)
Inductive pc : Type :=
| Called                                   (* not yet run *)
| Queued                                   (* in [async with self._lock] *)
| Fetching (more : nat) (rep : reply)      (* in [client.get], lock held;
                                              [more] rounds after this one *)
| Sleeping (more : nat) (e : exn)          (* in [asyncio.sleep], lock held *)
| Returned
| Raised (e : exn).

Record task : Type := { force : bool; at_pc : pc }.

Record state : Type := {
  shared : world;
  locked : bool;
  tasks : list task
}.

(** The result of running a task up to its next suspension: where it
    stops, whether [_lock] is held afterwards, and the world. *)
Definition leg : Type := pc * bool * world.

Section WithUpstream.
Variable U : upstream.

(** The end of the [for] loop, or the [client.get] of its next round. *)
Definition start_round (n : nat) (last_exc : option exn) (w : world) : leg :=
  match n with
  | O =>
      match last_exc with
      | Some e => (Returned, false, snd (print_warning e w))
      | None => (Returned, false, w)
      end
  | S more =>
      let w' := snd (do_event (EvGet (base_url (registry w) ++ "/v1/models")%string) w) in
      (Fetching more (serve U (log w')), true, w')
  end.

(** From the moment the task holds [_lock]. *)
Definition enter (f : bool) (w : world) : leg :=
  match fresh_and_unforced U f w with
  | (Ret true, w') => (Returned, false, w')
  | (Ret false, w') => start_round (attempts (registry w') f) None w'
  | (Raise e, w') => (Raised e, false, w')
  end.

(** The reply of [client.get] has arrived. *)
Definition fetched (f : bool) (more : nat) (rep : reply) (w : world) : leg :=
  let got :=
    match rep with
    | Answered r => parse_models r
    | Unreachable => Raise TransportError
    end in
  match got with
  | Ret ids =>
      if truthy (JArr ids) then
        let w1 := snd (set_models ids w) in
        let '(now, w2) := time_time U w1 in
        match now with
        | Ret t => (Returned, false, snd (set_last_fetch t w2))
        | Raise e => (Raised e, false, w2)
        end
      else (Returned, false, w)
  | Raise e =>
      if f then
        (Sleeping more e, true, snd (sleep (retry_delay_sec (registry w)) w))
      else start_round more (Some e) w
  end.

(** One resumption of a task, when it can go on. *)
Definition resume_task (t : task) (lk : bool) (w : world) : option leg :=
  match at_pc t with
  | Called =>
      match fresh_and_unforced U (force t) w with
      | (Ret true, w') => Some (Returned, lk, w')
      | (Ret false, w') =>
          if lk then Some (Queued, lk, w') else Some (enter (force t) w')
      | (Raise e, w') => Some (Raised e, lk, w')
      end
  | Queued => if lk then None else Some (enter (force t) w)
  | Fetching more rep => Some (fetched (force t) more rep w)
  | Sleeping more e => Some (start_round more (Some e) w)
  | Returned | Raised _ => None
  end.

Fixpoint set_task (i : nat) (t : task) (ts : list task) : list task :=
  match ts, i with
  | [], _ => []
  | _ :: ts', O => t :: ts'
  | t0 :: ts', S i' => t0 :: set_task i' t ts'
  end.

(** The loop resumes task [i]. *)
Definition resume (st : state) (i : nat) : option state :=
  match nth_error (tasks st) i with
  | None => None
  | Some t =>
      match resume_task t (locked st) (shared st) with
      | None => None
      | Some (p, lk, w) =>
          Some {| shared := w; locked := lk;
                  tasks := set_task i {| force := force t; at_pc := p |}
                             (tasks st) |}
      end
  end.

Definition step (st st' : state) : Prop := exists i, resume st i = Some st'.

Definition reachable : state -> state -> Prop := clos_refl_trans_n1 state step.

(** A schedule: the tasks resumed, in order. *)
Fixpoint run (sched : list nat) (st : state) : option state :=
  match sched with
  | [] => Some st
  | i :: rest =>
      match resume st i with
      | Some st' => run rest st'
      | None => None
      end
  end.

End WithUpstream.

(** [n] calls of [refresh(force)] made on the world [w], none run yet. *)
Definition calls (f : bool) (n : nat) (w : world) : state :=
  {| shared := w; locked := false;
     tasks := repeat {| force := f; at_pc := Called |} n |}.

Definition not_started (t : task) : bool :=
  match at_pc t with Called => true | _ => false end.

Definition finished (t : task) : bool :=
  match at_pc t with Returned | Raised _ => true | _ => false end.

Definition all_finished (st : state) : bool := forallb finished (tasks st).

Definition in_flight (t : task) : bool :=
  match at_pc t with Fetching _ _ | Sleeping _ _ => true | _ => false end.

Definition is_get (ev : event) : bool :=
  match ev with EvGet _ => true | _ => false end.

Definition is_post (ev : event) : bool :=
  match ev with EvPost _ _ => true | _ => false end.

(** The upstream never fails a listing: every GET is answered with a
    listing [_fetch_models] accepts. *)
Definition never_fails (U : upstream) : Prop :=
  forall l, exists r ids, serve U l = Answered r /\ parse_models r = Ret ids.

End Gate.

(** ** The specification's wording

    Definitions that follow the sentences of the specification, to be
    compared with the code above. *)

Module Spec.
Import Py Eff Registry Backend Router.

(** A requested or default model as the specification has it: a string or
    nothing. *)
Definition of_opt (o : option string) : json :=
  match o with Some s => JStr s | None => JNull end.

(** "absent (None or empty)" *)
Definition absent (o : option string) : Prop := o = None \/ o = Some "".

(** "the ordered list [requested (if present), default (if present)]" *)
Definition candidate_list (requested default_model : json) : list json :=
  filter truthy [requested; default_model].

(** "returns the first candidate that is an exact member of the snapshot;
    if no candidate is a member and the snapshot is non-empty, its first
    element; if the snapshot is empty, requested if present, else default if
    present, else the empty string" *)
Definition resolve (snapshot : list json) (requested default_model : json)
    : json :=
  let cands := candidate_list requested default_model in
  match find (fun c => py_in c snapshot) cands with
  | Some c => c
  | None =>
      match snapshot with
      | first :: _ => first
      | [] => hd (JStr "") cands
      end
  end.

(** "it is the empty string exactly when the snapshot is empty and both
    requested and default are absent" *)
Definition empty_only_when_nothing_known (ids : list string)
    (requested default_model : option string) : Prop :=
  resolve_in (map JStr ids) (of_opt requested) (of_opt default_model) = JStr ""
  <-> (ids = [] /\ absent requested /\ absent default_model).



(** "zero-length chunk" *)
Definition zero_length (c : chunk) : bool :=
  match c with [] => true | _ => false end.

(** It matches "case-insensitively": some stretch of the message is the
    pattern once lowered. *)
Definition mentions (pat msg : string) : Prop :=
  exists pre mid post,
    msg = (pre ++ mid ++ post)%string /\ lower mid = pat.

(** The message of an error object as a string: its ["message"] when that
    is a string, the empty string when it is missing or counts as false,
    [None] for anything else. *)
Definition message_text (err : list (string * json)) : option string :=
  match dict_get "message" err with
  | JStr s => Some s
  | v => if truthy v then None else Some ""
  end.

(** The log right after a GET made between the worlds [w] and [w']. *)
Definition get_during (w w' : world) (l : list event) : Prop :=
  exists later url earlier,
    log w' = (later ++ l)%list /\ l = (EvGet url :: earlier ++ log w)%list.

(** What [_fetch_models] makes of the answer to the GET after which the log
    is [l]. *)
Definition listing_at (U : upstream) (l : list event) : outcome (list json) :=
  match serve U l with
  | Answered r => parse_models r
  | Unreachable => Raise TransportError
  end.

(** The address of the listing. *)
Definition models_url (w : world) : string :=
  (base_url (registry w) ++ "/v1/models")%string.

(** The world once the GET of the listing is made. *)
Definition after_get (w : world) : world :=
  {| registry := registry w; log := EvGet (models_url w) :: log w |}.

(** The registry with its cache replaced. *)
Definition with_cache (r : ModelRegistry) (ids : list json) (t : Z)
    : ModelRegistry :=
  {| base_url := base_url r; ttl_sec := ttl_sec r; retries := retries r;
     retry_delay_sec := retry_delay_sec r; _models := ids; _last_fetch := t |}.

(** What a call of [refresh] that goes from [w] to [w'] has done: the log
    only grows; a GET of the call that is answered with a listing is the
    last thing the call does to the upstream, and a non-empty listing, and
    only that, replaces the cache and stamps it with the clock read next;
    when every GET of the call fails the registry is as before. *)
Definition refreshed (U : upstream) (w w' : world) : Prop :=
  (exists mid, log w' = (mid ++ log w)%list) /\
  (forall l ids,
     get_during w w' l -> listing_at U l = Ret ids ->
     log w' = ((if truthy (JArr ids) then [EvTime] else []) ++ l)%list /\
     registry w' =
       if truthy (JArr ids) then with_cache (registry w) ids (clock U l)
       else registry w) /\
  ((forall l, get_during w w' l -> exists e, listing_at U l = Raise e) ->
   registry w' = registry w).

(** The address the buffered path posts to. *)
Definition chat_url (environ : list (string * string)) : string :=
  (rstrip_slash (getenv environ "VLLM_BASE_URL" "http://vllm:8000") ++ path)%string.

(** [resp_json] of the handler: [r.json()], or [None] when it raises. *)
Definition resp_json_of (r : response) : json :=
  match body_json r with Some j => j | None => JNull end.

(** The log right after the latest POST in [l]. *)
Fixpoint last_post_log (l : list event) : list event :=
  match l with
  | [] => []
  | ev :: l' => if Gate.is_post ev then l else last_post_log l'
  end.

(** Between [w] and [w'] things were done, none of them a POST. *)
Definition no_post_since (w w' : world) : Prop :=
  exists mid,
    log w' = (mid ++ log w)%list /\
    forallb (fun ev => negb (Gate.is_post ev)) mid = true.

Definition count_gets (l : list event) : nat :=
  List.length (filter Gate.is_get l).

Definition count_posts (l : list event) : nat :=
  List.length (filter Gate.is_post l).

(** A task that holds [_lock] with a fetch under way counts for one. *)
Definition flight (p : Gate.pc) : nat :=
  match p with Gate.Fetching _ _ | Gate.Sleeping _ _ => 1 | _ => 0 end.

(** A task that has made its GET, answered or not yet, counts for one. *)
Definition fetches (p : Gate.pc) : nat :=
  match p with Gate.Fetching _ _ | Gate.Returned => 1 | _ => 0 end.

Definition total (f : Gate.pc -> nat) (ts : list Gate.task) : nat :=
  list_sum (map (fun t => f (Gate.at_pc t)) ts).

(** Where a forced call can be when the upstream never fails. *)
Definition on_course (p : Gate.pc) : Prop :=
  match p with
  | Gate.Called | Gate.Queued | Gate.Returned => True
  | Gate.Fetching _ rep =>
      exists r ids, rep = Answered r /\ parse_models r = Ret ids
  | Gate.Sleeping _ _ | Gate.Raised _ => False
  end.

(** What holds of every state forced calls can reach. *)
Definition steady (g0 : nat) (n : nat) (st : Gate.state) : Prop :=
  List.length (Gate.tasks st) = n /\
  (forall t, In t (Gate.tasks st) ->
             Gate.force t = true /\ on_course (Gate.at_pc t)) /\
  count_gets (log (Gate.shared st)) = (g0 + total fetches (Gate.tasks st))%nat /\
  total flight (Gate.tasks st) = Nat.b2n (Gate.locked st).

(** One call alone, where a leg has left it. *)
Definition solo (f : bool) (l : Gate.leg) : Gate.state :=
  let '(p, lk, w) := l in
  {| Gate.shared := w; Gate.locked := lk;
     Gate.tasks := [{| Gate.force := f; Gate.at_pc := p |}] |}.

(** The schedule that runs the calls [k], [k+1], ... one after the other,
    each to its end: resumed once to make its GET, once more on the
    answer. *)
Fixpoint one_by_one (k n : nat) : list nat :=
  match n with
  | O => []
  | S n' => k :: k :: one_by_one (S k) n'
  end.

(** *** Further notions, for the properties beyond the specification *)

Definition is_sleep (ev : event) : bool :=
  match ev with EvSleep _ => true | _ => false end.

Definition count_sleeps (l : list event) : nat :=
  List.length (filter is_sleep l).

(** The settings of the registry, which nothing is meant to change. *)
Definition same_config (r r' : ModelRegistry) : Prop :=
  base_url r' = base_url r /\ ttl_sec r' = ttl_sec r /\
  retries r' = retries r /\ retry_delay_sec r' = retry_delay_sec r.

(** The log of [n] rounds of [refresh] that all failed, forced or not. *)
Fixpoint failed_rounds (force : bool) (d : Z) (url : string) (n : nat)
    : list event :=
  match n with
  | O => []
  | S n' =>
      ((if force then [EvSleep d] else []) ++ [EvGet url]
       ++ failed_rounds force d url n')%list
  end.

(** The message the policy puts in front. *)
Definition system_message (note : string) : json :=
  JObj [("role", JStr "system"); ("content", JStr note)].

(** The messages of a payload as a list: its ["messages"] when that is a
    list, the empty list when it is missing or counts as false, [None] for
    anything else. *)
Definition messages_of (payload : list (string * json)) : option (list json) :=
  match dict_get "messages" payload with
  | JArr l => Some l
  | v => if truthy v then None else Some []
  end.

(** The first message is an object whose role is ["system"]. *)
Definition led_by_system (l : list json) : Prop :=
  exists d rest, l = JObj d :: rest /\ dict_get "role" d = JStr "system".

(** An answer that does not speak of a missing model: any status but 404,
    or a 404 whose body is not JSON or is an object without ["error"]. *)
Definition plain_answer (r : response) : Prop :=
  status_code r <> 404%Z \/
  body_json r = None \/
  exists d, body_json r = Some (JObj d) /\ lookup "error" d = None.

(** Calls of [refresh] with the flags [fs], made on the world [w], none run
    yet. *)
Definition calls_of (fs : list bool) (w : world) : Gate.state :=
  {| Gate.shared := w; Gate.locked := false;
     Gate.tasks :=
       map (fun f => {| Gate.force := f; Gate.at_pc := Gate.Called |}) fs |}.

(** The rounds one call makes at most: [max(1, retries)]. *)
Definition rounds_bound (reg : ModelRegistry) : nat :=
  Z.to_nat (Z.max 1 (retries reg)).

(** The resumptions a task at [p] can still take, with [R] rounds at
    most. *)
Definition fuel (R : nat) (p : Gate.pc) : nat :=
  match p with
  | Gate.Called => 2 * R + 2
  | Gate.Queued => 2 * R + 1
  | Gate.Fetching more _ => 2 * more + 2
  | Gate.Sleeping more _ => 2 * more + 1
  | Gate.Returned | Gate.Raised _ => 0
  end%nat.

(** The GETs a task at [p] can still make, with [R] rounds at most. *)
Definition gets_left (R : nat) (p : Gate.pc) : nat :=
  match p with
  | Gate.Called | Gate.Queued => R
  | Gate.Fetching more _ | Gate.Sleeping more _ => more
  | Gate.Returned | Gate.Raised _ => 0%nat
  end.

(** What holds of every state calls of [refresh] can reach: the settings
    are kept, no call has raised, and the lock is held exactly while one
    call is between its GET and the end of its rounds. *)
Definition orderly (w0 : world) (fs : list bool) (st : Gate.state) : Prop :=
  map Gate.force (Gate.tasks st) = fs /\
  same_config (registry w0) (registry (Gate.shared st)) /\
  (forall t e, In t (Gate.tasks st) -> Gate.at_pc t <> Gate.Raised e) /\
  total flight (Gate.tasks st) = Nat.b2n (Gate.locked st).

(** Every GET of the listing is answered with a listing that is not
    empty. *)
Definition always_lists (U : upstream) : Prop :=
  forall l, exists r ids,
    serve U l = Answered r /\ parse_models r = Ret ids /\ ids <> [].

(** All readings of the clock fall in a window shorter than [ttl] that
    starts at [t0]. *)
Definition clock_within (U : upstream) (t0 ttl : Z) : Prop :=
  forall l, t0 <= clock U l < t0 + ttl.

(** Where a call that is not forced can be when the upstream always
    lists. *)
Definition listed (p : Gate.pc) : Prop :=
  match p with
  | Gate.Called | Gate.Queued | Gate.Returned => True
  | Gate.Fetching _ rep =>
      exists r ids, rep = Answered r /\ parse_models r = Ret ids /\ ids <> []
  | Gate.Sleeping _ _ | Gate.Raised _ => False
  end.

(** What holds of every state that calls which are not forced can reach
    from [w0], when the upstream always lists and the clock stays in a
    window from [t0]: no fetch has begun, or one is under way, or one has
    ended and stamped the cache. *)
Definition shared_fetch (w0 : world) (t0 : Z) (st : Gate.state) : Prop :=
  (forall t, In t (Gate.tasks st) ->
             Gate.force t = false /\ listed (Gate.at_pc t)) /\
  total flight (Gate.tasks st) = Nat.b2n (Gate.locked st) /\
  ttl_sec (registry (Gate.shared st)) = ttl_sec (registry w0) /\
  ((Gate.locked st = false /\
    registry (Gate.shared st) = registry w0 /\
    count_gets (log (Gate.shared st)) = count_gets (log w0) /\
    (_last_fetch (registry w0) + ttl_sec (registry w0) <= t0 ->
     forall t, In t (Gate.tasks st) -> Gate.at_pc t <> Gate.Returned)) \/
   (Gate.locked st = true /\
    count_gets (log (Gate.shared st)) = S (count_gets (log w0))) \/
   (Gate.locked st = false /\
    count_gets (log (Gate.shared st)) = S (count_gets (log w0)) /\
    t0 <= _last_fetch (registry (Gate.shared st)) /\
    _models (registry (Gate.shared st)) <> [])).

(** [n] slashes. *)
Fixpoint slashes (n : nat) : string :=
  match n with
  | O => EmptyString
  | S n' => String "/" (slashes n')
  end.

(** The value a dict of headers gives for [k]. *)
Fixpoint header_get (k : string) (h : list (string * string)) : option string :=
  match h with
  | [] => None
  | (k', v) :: h' => if String.eqb k k' then Some v else header_get k h'
  end.

(** The value the last item for [k] in a list of items gives. *)
Fixpoint last_given (k : string) (items : list (string * string))
    : option string :=
  match items with
  | [] => None
  | (k', v) :: rest =>
      match last_given k rest with
      | Some v' => Some v'
      | None => if String.eqb k k' then Some v else None
      end
  end.

End Spec.

(** ** Sample upstreams and worlds *)

Module Samples.
Import Py Eff Registry Backend.

(** An upstream that cannot be reached; its clock stands at 0. *)
Definition quiet : upstream :=
  {| clock := fun _ => 0; serve := fun _ => Unreachable |}.

(** An upstream that answers every request with [r]; its clock stands at
    100. *)
Definition serving (r : response) : upstream :=
  {| clock := fun _ => 100; serve := fun _ => Answered r |}.

(** The body of a listing of the models [ids]. *)
Definition listing_body (ids : list string) : json :=
  JObj [("object", JStr "list");
        ("data", JArr (map (fun i => JObj [("id", JStr i)]) ids))].

Definition listing (ids : list string) : response :=
  {| status_code := 200; text := ""; body_json := Some (listing_body ids) |}.

(** A registry as [main.py] configures it, holding the cache [ms] stamped
    [last]. *)
Definition registry_with (ms : list json) (last : Z) : ModelRegistry :=
  {| base_url := "http://vllm:8000"; ttl_sec := 60; retries := 10;
     retry_delay_sec := 1; _models := ms; _last_fetch := last |}.

Definition world_with (ms : list json) (last : Z) : world :=
  {| registry := registry_with ms last; log := [] |}.

(** The answer of vLLM to an unknown model. *)
Definition vllm_error : json :=
  JObj [("error",
         JObj [("message", JStr "The model `x` does not exist.");
               ("type", JStr "NotFoundError");
               ("param", JNull);
               ("code", JNum 404)])].

Definition completion : json :=
  JObj [("object", JStr "chat.completion"); ("model", JStr "m1")].

(** An upstream that serves the model [m1] only: it lists it, completes
    the requests for it and answers 404 to the others; its clock stands at
    100. *)
Definition only_m1 : upstream :=
  {| clock := fun _ => 100;
     serve := fun l =>
       match l with
       | EvGet _ :: _ => Answered (listing ["m1"])
       | EvPost _ (JObj payload) :: _ =>
           if py_eq (dict_get "model" payload) (JStr "m1")
           then Answered {| status_code := 200; text := "";
                            body_json := Some completion |}
           else Answered {| status_code := 404; text := "";
                            body_json := Some vllm_error |}
       | _ => Unreachable
       end |}.

(** The answer of an upstream that does not know the model, with the error
    as a plain string. *)
Definition plain_error : json := JObj [("error", JStr "model 'x' not found")].

End Samples.

(** * Properties *)

(** ** Python values *)

Module PyFacts.
Import Py.

Lemma truthy_str (s : string) : truthy (JStr s) = true <-> s <> "".
Proof.
  simpl. destruct (String.eqb_spec s ""); simpl; split; congruence.
Qed.

Lemma py_eq_str_l (s : string) (v : json) :
  py_eq (JStr s) v = true <-> v = JStr s.
Proof.
  destruct v; simpl; split; try congruence.
  - intros H. apply String.eqb_eq in H. now subst.
  - intros [= ->]. apply String.eqb_refl.
Qed.

Lemma py_in_str (s : string) (xs : list json) :
  py_in (JStr s) xs = true <-> In (JStr s) xs.
Proof.
  unfold py_in. rewrite existsb_exists. split.
  - intros (y & Hy & E). apply py_eq_str_l in E. now subst.
  - intros H. exists (JStr s). split; [assumption | now apply py_eq_str_l].
Qed.

Lemma lookup_set_same k v d : lookup k (dict_set k v d) = Some v.
Proof.
  induction d as [|[k' v'] d IH]; simpl.
  - now rewrite String.eqb_refl.
  - destruct (String.eqb_spec k k') as [->|N]; simpl.
    + now rewrite String.eqb_refl.
    + destruct (String.eqb_spec k k'); [contradiction | assumption].
Qed.

Lemma lookup_set_other k k' v d :
  k' <> k -> lookup k' (dict_set k v d) = lookup k' d.
Proof.
  intros N. induction d as [|[k0 v0] d IH]; simpl.
  - destruct (String.eqb_spec k' k); [contradiction | reflexivity].
  - destruct (String.eqb_spec k k0) as [->|N0]; simpl.
    + destruct (String.eqb_spec k' k0); [contradiction | reflexivity].
    + destruct (String.eqb_spec k' k0); [reflexivity | assumption].
Qed.

Lemma lower_app (s t : string) : lower (s ++ t) = (lower s ++ lower t)%string.
Proof. induction s as [|c s IH]; simpl; [reflexivity | now rewrite IH]. Qed.

Lemma lower_length (s : string) : String.length (lower s) = String.length s.
Proof. induction s as [|c s IH]; simpl; [reflexivity | now rewrite IH]. Qed.

(** A lowered string splits the way its original does. *)
Lemma lower_split (s a b : string) :
  lower s = (a ++ b)%string ->
  exists a' b', s = (a' ++ b')%string /\ lower a' = a /\ lower b' = b.
Proof.
  revert a. induction s as [|c s IH]; intros a H.
  - destruct a; simpl in H; [|discriminate].
    exists "", "". simpl in *. repeat split. now symmetry.
  - destruct a as [|x a]; simpl in H.
    + exists "", (String c s). simpl. repeat split. now symmetry.
    + injection H as Hc Hs. destruct (IH _ Hs) as (a' & b' & -> & <- & <-).
      exists (String c a'), b'. simpl. now rewrite Hc.
Qed.

Lemma starts_with_iff (pat s : string) :
  starts_with pat s = true <-> exists post, s = (pat ++ post)%string.
Proof.
  revert s. induction pat as [|a pat IH]; intros s; simpl.
  - split; [intros _; now exists s | reflexivity].
  - destruct s as [|b s].
    + split; [discriminate | intros [post H]; discriminate].
    + rewrite andb_true_iff, IH. split.
      * intros [E [post ->]]. apply Ascii.eqb_eq in E. subst. now exists post.
      * intros [post [= -> ->]]. split; [apply Ascii.eqb_refl | now exists post].
Qed.

Lemma contains_iff (pat s : string) :
  contains pat s = true <-> exists pre post, s = (pre ++ pat ++ post)%string.
Proof.
  induction s as [|c s IH]; simpl.
  - rewrite orb_false_r, starts_with_iff. split.
    + intros [post H]. now exists "", post.
    + intros (pre & post & H). destruct pre; [now exists post | discriminate].
  - rewrite orb_true_iff, IH, starts_with_iff. split.
    + intros [[post H] | (pre & post & ->)].
      * now exists "", post.
      * now exists (String c pre), post.
    + intros (pre & post & H). destruct pre as [|x pre]; simpl in H.
      * left. now exists post.
      * right. injection H as _ ->. now exists pre, post.
Qed.

End PyFacts.

(** ** The model registry *)

Module RegistryFacts.
Import Py Eff Registry Spec PyFacts.
Local Open Scope list_scope.

Lemma get_during_inv (w w' : world) (pre l : list event) :
  log w' = pre ++ log w -> get_during w w' l ->
  exists later u earlier,
    pre = later ++ EvGet u :: earlier /\ l = EvGet u :: earlier ++ log w.
Proof.
  intros Hlog (later & u & earlier & H1 & H2).
  exists later, u, earlier. split; [|assumption].
  rewrite Hlog, H2 in H1.
  apply (app_inv_tail (log w)).
  rewrite H1, <- app_assoc. reflexivity.
Qed.

Lemma get_during_intro (w w' : world) (later earlier : list event) u :
  log w' = later ++ EvGet u :: earlier ++ log w ->
  get_during w w' (EvGet u :: earlier ++ log w).
Proof. intros H. now exists later, u, earlier. Qed.

(** A GET made after [w] was made after the later world [w1] too, unless it
    is among what separates the two. *)
Lemma get_during_split (w w1 w' : world) (pre mid l : list event) :
  log w1 = pre ++ log w -> log w' = mid ++ log w1 -> get_during w w' l ->
  get_during w1 w' l \/
  exists later u earlier,
    pre = later ++ EvGet u :: earlier /\ l = EvGet u :: earlier ++ log w.
Proof.
  intros H1 H' Hd.
  assert (Hlog : log w' = (mid ++ pre) ++ log w)
    by (rewrite H', H1, app_assoc; reflexivity).
  destruct (get_during_inv _ _ _ _ Hlog Hd) as (later & u & earlier & E & ->).
  apply app_eq_app in E. destruct E as (l0 & [[E1 E2] | [E1 E2]]).
  - destruct l0 as [|x l0].
    + simpl in E2. right. exists [], u, earlier. split; [now symmetry | reflexivity].
    + injection E2 as <- ->. left.
      exists later, u, l0. split.
      * rewrite H', E1, H1, <- !app_assoc. reflexivity.
      * rewrite H1, <- app_assoc. reflexivity.
  - right. exists l0, u, earlier. split; [assumption | reflexivity].
Qed.

Lemma get_during_later (w w1 w' : world) (pre l : list event) :
  log w1 = pre ++ log w -> get_during w1 w' l -> get_during w w' l.
Proof.
  intros H1 (later & u & earlier & E1 & E2).
  exists later, u, (earlier ++ pre). split; [assumption|].
  rewrite E2, H1, <- app_assoc. reflexivity.
Qed.

(** Steps that make no GET and leave the registry alone may come first. *)
Lemma refreshed_after (U : upstream) (w w1 w' : world) (pre : list event) :
  registry w1 = registry w -> log w1 = pre ++ log w ->
  forallb (fun ev => negb (Gate.is_get ev)) pre = true ->
  refreshed U w1 w' -> refreshed U w w'.
Proof.
  intros Hr Hl Hpre ([mid Hmid] & Hok & Hfail).
  assert (Hsplit : forall l, get_during w w' l -> get_during w1 w' l).
  { intros l Hd.
    destruct (get_during_split _ _ _ _ _ _ Hl Hmid Hd)
      as [H | (later & u & earlier & E & _)]; [assumption|].
    exfalso. rewrite E, forallb_app in Hpre. simpl in Hpre.
    rewrite andb_false_r in Hpre. discriminate. }
  split; [|split].
  - exists (mid ++ pre). rewrite Hmid, Hl, app_assoc. reflexivity.
  - intros l ids Hd Hl'. rewrite <- Hr. apply Hok; auto.
  - intros Hall. rewrite <- Hr. apply Hfail.
    intros l Hd. apply Hall. eapply get_during_later; eauto.
Qed.

Section WithUpstream.
Variable U : upstream.

Lemma fetch_models_eq (w : world) :
  _fetch_models U w = (listing_at U (log (after_get w)), after_get w).
Proof.
  unfold _fetch_models, bind, get_registry, http_get, bind, do_event, answer,
    listing_at, lift. simpl.
  fold (models_url w). fold (after_get w).
  change (EvGet (models_url w) :: log w) with (log (after_get w)).
  destruct (serve U (log (after_get w))); reflexivity.
Qed.

(** [_is_fresh] only reads the clock. *)
Lemma is_fresh_reads (w : world) :
  exists b pre,
    _is_fresh U w = (Ret b, {| registry := registry w; log := pre ++ log w |})
    /\ (pre = [] \/ pre = [EvTime]).
Proof.
  unfold _is_fresh, bind, get_registry, ret, time_time.
  destruct (ttl_sec (registry w) <=? 0).
  - exists false, []. split; [destruct w; reflexivity | now left].
  - eexists _, [EvTime]. split; [reflexivity | now right].
Qed.

Lemma fresh_and_unforced_reads (force : bool) (w : world) :
  exists b pre,
    fresh_and_unforced U force w
    = (Ret b, {| registry := registry w; log := pre ++ log w |})
    /\ (pre = [] \/ pre = [EvTime]).
Proof.
  unfold fresh_and_unforced. destruct force; simpl.
  - exists false, []. split; [destruct w; reflexivity | now left].
  - apply is_fresh_reads.
Qed.

Lemma refresh_loop_spec (force : bool) (n : nat) :
  forall (last_exc : option exn) (w : world),
  exists w', refresh_loop U force n last_exc w = (Ret tt, w') /\ refreshed U w w'.
Proof.
  induction n as [|n IH]; intros last_exc w.
  - assert (Hnone : forall pre w',
              log w' = pre ++ log w -> registry w' = registry w ->
              forallb (fun ev => negb (Gate.is_get ev)) pre = true ->
              refreshed U w w').
    { intros pre w' Hl Hr Hpre. split; [|split].
      - now exists pre.
      - intros l ids Hd _. exfalso.
        destruct (get_during_inv _ _ _ _ Hl Hd) as (later & u & earlier & E & _).
        rewrite E, forallb_app in Hpre. simpl in Hpre.
        rewrite andb_false_r in Hpre. discriminate.
      - intros _. assumption. }
    simpl. destruct last_exc as [e|].
    + eexists. split; [reflexivity|].
      apply (Hnone [EvPrint e]); reflexivity.
    + exists w. split; [reflexivity|]. apply (Hnone []); reflexivity.
  - cbn [refresh_loop]. unfold try_except. rewrite fetch_models_eq.
    destruct (listing_at U (log (after_get w))) as [ids|e] eqn:Hfetch.
    + (* the listing arrived *)
      destruct (truthy (JArr ids)) eqn:Hids.
      * eexists. split; [reflexivity|]. simpl.
        split; [|split].
        -- exists [EvTime; EvGet (models_url w)]. reflexivity.
        -- intros l ids' Hd Hl.
           eapply (get_during_inv _ _ [EvTime; EvGet (models_url w)]) in Hd
             as (later & u & earlier & E & ->); [|reflexivity].
           destruct later as [|x [|y later]]; try discriminate;
             [|destruct later; discriminate].
           injection E as <- <- <-. simpl in Hl.
           change (EvGet (models_url w) :: log w) with (log (after_get w)) in *.
           rewrite Hfetch in Hl. injection Hl as <-. rewrite Hids.
           split; reflexivity.
        -- intros Hall. exfalso.
           destruct (Hall (log (after_get w))) as [e He].
           ++ exists [EvTime], (models_url w), []. split; reflexivity.
           ++ congruence.
      * exists (after_get w). split; [reflexivity|].
        split; [|split].
        -- exists [EvGet (models_url w)]. reflexivity.
        -- intros l ids' Hd Hl.
           eapply (get_during_inv _ _ [EvGet (models_url w)]) in Hd
             as (later & u & earlier & E & ->); [|reflexivity].
           destruct later as [|x later]; [|destruct later; discriminate].
           injection E as <- <-. simpl in Hl.
           change (EvGet (models_url w) :: log w) with (log (after_get w)) in *.
           rewrite Hfetch in Hl. injection Hl as <-. rewrite Hids.
           split; reflexivity.
        -- intros _. reflexivity.
    + (* the fetch raised *)
      set (w1 := snd ((if force
                       then bind get_registry
                              (fun reg => sleep (retry_delay_sec reg))
                       else ret tt) (after_get w))).
      assert (Hw1 : exists pre,
                 (if force
                  then bind get_registry
                         (fun reg => sleep (retry_delay_sec reg))
                  else ret tt) (after_get w) = (Ret tt, w1)
                 /\ registry w1 = registry w
                 /\ log w1 = pre ++ log w
                 /\ (pre = [EvGet (models_url w)]
                     \/ exists d, pre = [EvSleep d; EvGet (models_url w)])).
      { subst w1. destruct force.
        - eexists. split; [reflexivity|]. split; [reflexivity|].
          split; [|right; eexists; reflexivity]. reflexivity.
        - eexists. split; [reflexivity|]. split; [reflexivity|].
          split; [|left; reflexivity]. reflexivity. }
      destruct Hw1 as (pre & Hrun & Hr1 & Hl1 & Hpre).
      unfold bind at 1. rewrite Hrun.
      destruct (IH (Some e) w1) as (w' & Hloop & [mid Hmid] & Hok & Hfail).
      exists w'. split; [assumption|].
      assert (Hfirst : forall l later u earlier,
                pre = later ++ EvGet u :: earlier ->
                l = EvGet u :: earlier ++ log w -> l = log (after_get w)).
      { intros l later u earlier E ->.
        destruct Hpre as [-> | [d ->]].
        - destruct later as [|x later]; [|destruct later; discriminate].
          injection E as <- <-. reflexivity.
        - destruct later as [|x [|y later]]; try discriminate;
            [|destruct later; discriminate].
          injection E as <- <- <-. reflexivity. }
      split; [|split].
      * exists (mid ++ pre). rewrite Hmid, Hl1, app_assoc. reflexivity.
      * intros l ids Hd Hl. rewrite <- Hr1.
        destruct (get_during_split _ _ _ _ _ _ Hl1 Hmid Hd)
          as [H | (later & u & earlier & E & El)]; [now apply Hok|].
        exfalso. rewrite (Hfirst _ _ _ _ E El) in Hl. congruence.
      * intros Hall. rewrite <- Hr1. apply Hfail.
        intros l Hd. apply Hall. eapply get_during_later; eauto.
Qed.

(** [refresh] returns, and does what [refreshed] says. *)
Lemma refresh_spec (force : bool) (w : world) :
  exists w', refresh U force w = (Ret tt, w') /\ refreshed U w w'.
Proof.
  assert (Hkeep : forall pre w',
            log w' = pre ++ log w -> registry w' = registry w ->
            forallb (fun ev => negb (Gate.is_get ev)) pre = true ->
            refreshed U w w').
  { intros pre w' Hl Hr Hpre. split; [|split].
    - now exists pre.
    - intros l ids Hd _. exfalso.
      destruct (get_during_inv _ _ _ _ Hl Hd) as (later & u & earlier & E & _).
      rewrite E, forallb_app in Hpre. simpl in Hpre.
      rewrite andb_false_r in Hpre. discriminate.
    - intros _. assumption. }
  unfold refresh, bind.
  destruct (fresh_and_unforced_reads force w) as (b1 & pre1 & -> & Hp1).
  destruct b1.
  { eexists. split; [reflexivity|].
    apply (Hkeep pre1); [reflexivity | reflexivity |].
    destruct Hp1 as [-> | ->]; reflexivity. }
  set (w1 := {| registry := registry w; log := pre1 ++ log w |}).
  destruct (fresh_and_unforced_reads force w1) as (b2 & pre2 & -> & Hp2).
  destruct b2.
  { eexists. split; [reflexivity|].
    apply (Hkeep (pre2 ++ pre1)); simpl.
    - rewrite app_assoc. reflexivity.
    - reflexivity.
    - destruct Hp1 as [-> | ->], Hp2 as [-> | ->]; reflexivity. }
  set (w2 := {| registry := registry w1; log := pre2 ++ log w1 |}).
  unfold get_registry.
  destruct (refresh_loop_spec force (attempts (registry w2) force) None w2)
    as (w' & Hloop & Hpost).
  exists w'. split; [assumption|].
  apply (refreshed_after U w w2 w' (pre2 ++ pre1)).
  - reflexivity.
  - simpl. rewrite app_assoc. reflexivity.
  - destruct Hp1 as [-> | ->], Hp2 as [-> | ->]; reflexivity.
  - assumption.
Qed.

End WithUpstream.


(** C6. [refresh(force)] never raises: whatever the upstream answers to the
    fetch attempts, the call returns, and when every attempt of the call
    fails the cached ids and the time of the last fetch are what they were
    before the call. *)
Theorem refresh_never_raises (U : upstream) (force : bool) (w : world) :
  exists w',
    refresh U force w = (Ret tt, w') /\
    ((forall l, get_during w w' l -> exists e, listing_at U l = Raise e) ->
     _models (registry w') = _models (registry w) /\
     _last_fetch (registry w') = _last_fetch (registry w)).
Proof.
  destruct (refresh_spec U force w) as (w' & Hrun & _ & _ & Hfail).
  exists w'. split; [assumption|].
  intros Hall. rewrite (Hfail Hall). split; reflexivity.
Qed.

Lemma refresh_never_raises_witness :
  exists w',
    refresh Samples.quiet true (Samples.world_with [JStr "A"] 7) = (Ret tt, w')
    /\ _models (registry w') = [JStr "A"]
    /\ _last_fetch (registry w') = 7%Z.
Proof.
  destruct (refresh_never_raises Samples.quiet true
              (Samples.world_with [JStr "A"] 7)) as (w' & Hrun & Hkeep).
  exists w'. split; [assumption|].
  apply Hkeep. intros l _. exists TransportError. reflexivity.
Defined.

(** C4, as the code has it.  A fetch of the listing that succeeds ends the
    call at once, whatever is left of the retry budget: nothing more is asked
    of the upstream.  When the listing fetched is not empty it becomes the
    cache as it is, with no id of the old cache kept, and the time of the
    last fetch is the clock read next; when it is empty the cache and the
    time of the last fetch stay as they were. *)
Theorem fetched_listing_ends_refresh (U : upstream) (force : bool) (w : world) :
  exists w',
    refresh U force w = (Ret tt, w') /\
    forall l ids,
      get_during w w' l -> listing_at U l = Ret ids ->
      (ids <> [] ->
       log w' = EvTime :: l /\
       _models (registry w') = ids /\
       _last_fetch (registry w') = clock U l) /\
      (ids = [] -> log w' = l /\ registry w' = registry w).
Proof.
  destruct (refresh_spec U force w) as (w' & Hrun & _ & Hok & _).
  exists w'. split; [assumption|].
  intros l ids Hd Hl. destruct (Hok l ids Hd Hl) as [Hlog Hreg].
  split.
  - intros Hne. destruct ids as [|i ids]; [contradiction|].
    simpl in Hlog, Hreg. rewrite Hlog, Hreg. repeat split.
  - intros ->. simpl in Hlog, Hreg. split; assumption.
Qed.

Lemma fetched_listing_ends_refresh_witness :
  exists w',
    refresh (Samples.serving (Samples.listing ["m1"; "m2"])) true
      (Samples.world_with [JStr "old"] 7) = (Ret tt, w')
    /\ _models (registry w') = [JStr "m1"; JStr "m2"]
    /\ _last_fetch (registry w') = 100%Z
    /\ log w' = [EvTime; EvGet "http://vllm:8000/v1/models"].
Proof.
  destruct (fetched_listing_ends_refresh
              (Samples.serving (Samples.listing ["m1"; "m2"])) true
              (Samples.world_with [JStr "old"] 7)) as (w' & Hrun & Hall).
  exists w'. split; [assumption|].
  assert (Hd : get_during (Samples.world_with [JStr "old"] 7) w'
                 [EvGet "http://vllm:8000/v1/models"]).
  { exists [EvTime], "http://vllm:8000/v1/models"%string, [].
    split; [|reflexivity].
    pose proof Hrun as Hc. vm_compute in Hc. injection Hc as <-. reflexivity. }
  destruct (Hall _ [JStr "m1"; JStr "m2"] Hd eq_refl) as [Hne _].
  destruct (Hne ltac:(discriminate)) as (Hlog & Hm & Ht).
  repeat split; assumption.
Defined.

(** C4, as stated, fails on an empty listing: the fetch succeeds with no ids,
    and the cache still holds the old id, stamped with the old time. *)
Lemma empty_listing_keeps_cache :
  let U := Samples.serving (Samples.listing []) in
  let w := Samples.world_with [JStr "old"] 7 in
  let w' := snd (refresh U true w) in
  exists l,
    get_during w w' l /\ listing_at U l = Ret [] /\
    _models (registry w') = [JStr "old"] /\
    _models (registry w') <> [] /\
    _last_fetch (registry w') = 7%Z /\
    clock U l = 100%Z.
Proof.
  exists [EvGet "http://vllm:8000/v1/models"]. repeat split.
  - exists [], "http://vllm:8000/v1/models"%string, []. split; reflexivity.
  - discriminate.
Qed.

(** *** [resolve_model] *)

Lemma candidates_spec (requested default_model : json) :
  candidates requested default_model = candidate_list requested default_model.
Proof.
  unfold candidates, candidate_list. simpl.
  destruct (truthy requested), (truthy default_model); reflexivity.
Qed.

Lemma first_known_find (cands models : list json) :
  first_known cands models = find (fun c => py_in c models) cands.
Proof.
  induction cands as [|c cands IH]; simpl; [reflexivity|].
  destruct (py_in c models); [reflexivity | assumption].
Qed.

Lemma first_known_some (cands models : list json) (c : json) :
  first_known cands models = Some c -> In c cands /\ py_in c models = true.
Proof.
  rewrite first_known_find. intros H. apply find_some in H. assumption.
Qed.

Lemma resolve_in_spec (models : list json) (requested default_model : json) :
  resolve_in models requested default_model
  = Spec.resolve models requested default_model.
Proof.
  unfold resolve_in, Spec.resolve.
  rewrite first_known_find, candidates_spec.
  destruct (find _ _); [reflexivity|].
  destruct models; [|reflexivity].
  unfold candidate_list. simpl.
  destruct (truthy requested), (truthy default_model); reflexivity.
Qed.

(** [resolve_model] returns, with the cache it leaves as its snapshot. *)
Lemma resolve_model_eq (U : upstream) (requested default_model : json)
    (w : world) :
  exists w',
    refresh U false w = (Ret tt, w') /\
    resolve_model U requested default_model w
    = (Ret (resolve_in (_models (registry w')) requested default_model), w').
Proof.
  destruct (refresh_spec U false w) as (w' & Hrun & _).
  exists w'. split; [assumption|].
  unfold resolve_model, bind. rewrite Hrun. reflexivity.
Qed.

(** C1. [resolve_model] returns the first of the candidates "requested if
    present, then default if present" that is a member of the snapshot of the
    cached ids (for a string, an exact member); when none is and the snapshot
    is not empty, the first id of the snapshot; when the snapshot is empty,
    requested if present, else default if present, else the empty string.
    The snapshot is the cache as the call leaves it.  The six cases of the
    specification follow. *)
Theorem resolve_model_priority :
  (forall (U : upstream) (requested default_model : json) (w : world),
     let out := resolve_model U requested default_model w in
     let snapshot := _models (registry (snd out)) in
     fst out = Ret (resolve_in snapshot requested default_model) /\
     resolve_in snapshot requested default_model
     = Spec.resolve snapshot requested default_model) /\
  (forall (s : string) (snapshot : list json),
     py_in (JStr s) snapshot = true <-> In (JStr s) snapshot) /\
  resolve_in [JStr "A"; JStr "B"] (JStr "B") (JStr "A") = JStr "B" /\
  resolve_in [JStr "A"; JStr "B"] (JStr "C") (JStr "A") = JStr "A" /\
  resolve_in [JStr "A"; JStr "B"] (JStr "C") (JStr "D") = JStr "A" /\
  resolve_in [] (JStr "C") (JStr "D") = JStr "C" /\
  resolve_in [] JNull (JStr "D") = JStr "D" /\
  resolve_in [] JNull JNull = JStr "".
Proof.
  split; [|split; [apply py_in_str | repeat split]].
  intros U requested default_model w out snapshot. subst out snapshot.
  destruct (resolve_model_eq U requested default_model w) as (w' & _ & ->).
  simpl. split; [reflexivity | apply resolve_in_spec].
Qed.

(** The six cases, run through [resolve_model] on a registry whose cache is
    fresh. *)
Example resolve_model_cases :
  let U := Samples.quiet in
  let wab := Samples.world_with [JStr "A"; JStr "B"] 0 in
  let w0 := Samples.world_with [] 0 in
  fst (resolve_model U (JStr "B") (JStr "A") wab) = Ret (JStr "B") /\
  fst (resolve_model U (JStr "C") (JStr "A") wab) = Ret (JStr "A") /\
  fst (resolve_model U (JStr "C") (JStr "D") wab) = Ret (JStr "A") /\
  fst (resolve_model U (JStr "C") (JStr "D") w0) = Ret (JStr "C") /\
  fst (resolve_model U JNull (JStr "D") w0) = Ret (JStr "D") /\
  fst (resolve_model U JNull JNull w0) = Ret (JStr "").
Proof. repeat split. Qed.

Lemma truthy_of_opt (o : option string) :
  truthy (of_opt o) = false <-> absent o.
Proof.
  unfold absent. destruct o as [s|]; simpl.
  - destruct (String.eqb_spec s ""); simpl; split; try congruence.
    + intros _. right. now subst.
    + intros [H | [= H]]; [discriminate | contradiction].
  - split; [now left | reflexivity].
Qed.

Lemma truthy_not_empty_str (v : json) : truthy v = true -> v <> JStr "".
Proof. intros H ->. discriminate. Qed.

Lemma candidates_truthy (requested default_model c : json) :
  In c (candidates requested default_model) ->
  truthy c = true /\ (c = requested \/ c = default_model).
Proof.
  unfold candidates.
  destruct (truthy requested) eqn:Hr, (truthy default_model) eqn:Hd; simpl;
    intros H; repeat destruct H as [H | H]; subst; try contradiction; auto.
Qed.

(** C9, as stated, fails when the upstream lists a model whose id is the
    empty string: the result is empty although the snapshot is not. *)
Lemma empty_id_counterexample :
  fst (resolve_model Samples.quiet JNull JNull (Samples.world_with [JStr ""] 0))
  = Ret (JStr "") /\
  ~ empty_only_when_nothing_known [""] None None.
Proof.
  split; [reflexivity|].
  unfold empty_only_when_nothing_known. simpl.
  intros [H _]. destruct (H eq_refl) as [H' _]. discriminate.
Qed.

(** C9, as the code has it.  The value [resolve_model] returns is the
    requested string, the default string, an id of the snapshot or the empty
    string; it is the empty string exactly when the snapshot is empty and
    requested and default are both absent, or when no candidate is in the
    snapshot and the first id of the snapshot is itself the empty string. *)
Theorem resolve_result_characterised (snapshot : list json)
    (requested default_model : option string) :
  let v := resolve_in snapshot (of_opt requested) (of_opt default_model) in
  (v = of_opt requested \/ v = of_opt default_model \/ In v snapshot
   \/ v = JStr "") /\
  (v = JStr "" <->
   (snapshot = [] /\ absent requested /\ absent default_model) \/
   (first_known (candidates (of_opt requested) (of_opt default_model)) snapshot
    = None /\ exists rest, snapshot = JStr "" :: rest)).
Proof.
  unfold resolve_in.
  destruct (first_known _ snapshot) as [c|] eqn:Hfk.
  - apply first_known_some in Hfk. destruct Hfk as [Hin _].
    apply candidates_truthy in Hin. destruct Hin as [Ht Hc].
    split; [tauto|]. split.
    + intros ->. discriminate.
    + intros [(-> & Ha & Hb) | [[=] _]].
      apply truthy_of_opt in Ha, Hb.
      destruct Hc as [-> | ->]; congruence.
  - destruct snapshot as [|m0 rest].
    + destruct (truthy (of_opt requested)) eqn:Hr;
        [|destruct (truthy (of_opt default_model)) eqn:Hd].
      * split; [tauto|]. split.
        -- intros E. apply truthy_not_empty_str in Hr. contradiction.
        -- intros [(_ & Ha & _) | (_ & rest & [=])].
           apply truthy_of_opt in Ha. congruence.
      * split; [tauto|]. split.
        -- intros E. apply truthy_not_empty_str in Hd. contradiction.
        -- intros [(_ & _ & Hb) | (_ & rest & [=])].
           apply truthy_of_opt in Hb. congruence.
      * split; [tauto|]. split; [|reflexivity].
        intros _. left. rewrite <- !truthy_of_opt. auto.
    + split; [right; right; left; now left|]. split.
      * intros ->. right. split; [reflexivity | now exists rest].
      * intros [([=] & _) | (_ & rest' & [= -> _])]. reflexivity.
Qed.

(** *** [_fetch_models] *)





(** *** [maybe_retry_on_model_404] *)

Lemma contains_lower_mentions (pat msg : string) :
  contains pat (lower msg) = true <-> mentions pat msg.
Proof.
  rewrite contains_iff. unfold mentions. split.
  - intros (pre & post & H).
    apply lower_split in H. destruct H as (a & b & -> & <- & Hb).
    apply lower_split in Hb. destruct Hb as (m & p & -> & <- & <-).
    exists a, m, p. split; reflexivity.
  - intros (pre & mid & post & -> & <-).
    exists (lower pre), (lower post). now rewrite !lower_app.
Qed.

(** Any status but 404 gives [None], whatever the body. *)
Lemma maybe_retry_other_status (U : upstream) (resp_status : Z)
    (resp_json requested default_model : json) (w : world) :
  resp_status <> 404%Z ->
  maybe_retry_on_model_404 U resp_status resp_json requested default_model w
  = (Ret JNull, w).
Proof.
  intros H. unfold maybe_retry_on_model_404.
  destruct (Z.eqb_spec resp_status 404); [contradiction | reflexivity].
Qed.

(** On a body whose error is an object with a string for message (or none),
    the test is the one the specification words. *)
Lemma is_model_not_found_on_error_object (fields err : list (string * json))
    (msg : string) :
  lookup "error" fields = Some (JObj err) ->
  message_text err = Some msg ->
  exists found,
    _is_model_not_found_404 (JObj fields) = Ret found /\
    (found = true <->
     py_eq (dict_get "code" err) (JNum 404) = true
     \/ mentions "does not exist" msg \/ mentions "not found" msg).
Proof.
  intros He Hm.
  assert (Hget : dict_get "error" fields = JObj err)
    by (unfold dict_get; now rewrite He).
  assert (Herr : py_or (JObj err) (JObj []) = JObj err)
    by (unfold py_or; destruct err; reflexivity).
  unfold _is_model_not_found_404, py_get. rewrite Hget, Herr.
  unfold message_text in Hm.
  assert (Hlow : py_lower (py_or (dict_get "message" err) (JStr "")) = Ret (lower msg)).
  { unfold py_or. destruct (dict_get "message" err) as [| b | n | s | l | f];
      simpl in *.
    - injection Hm as <-. reflexivity.
    - destruct b; [discriminate | injection Hm as <-; reflexivity].
    - destruct (n =? 0)%Z; simpl in *; [injection Hm as <-; reflexivity | discriminate].
    - injection Hm as <-. destruct (String.eqb_spec s ""); simpl; [now subst | reflexivity].
    - destruct l; [injection Hm as <-; reflexivity | discriminate].
    - destruct f; [injection Hm as <-; reflexivity | discriminate]. }
  rewrite Hlow. eexists. split; [reflexivity|].
  rewrite !orb_true_iff, !contains_lower_mentions. tauto.
Qed.

(** With the signal, a forced refresh and a second resolution; without it,
    [None]. *)
Lemma maybe_retry_on_error_object (U : upstream)
    (fields err : list (string * json)) (msg : string)
    (requested default_model : json) (w : world) :
  lookup "error" fields = Some (JObj err) ->
  message_text err = Some msg ->
  (py_eq (dict_get "code" err) (JNum 404) = true
   \/ mentions "does not exist" msg \/ mentions "not found" msg ->
   exists w1 w2,
     refresh U true w = (Ret tt, w1) /\
     refresh U false w1 = (Ret tt, w2) /\
     let new_model :=
       resolve_in (_models (registry w2)) requested default_model in
     maybe_retry_on_model_404 U 404 (JObj fields) requested default_model w
     = (Ret (if truthy new_model then new_model else JNull), w2)) /\
  (~ (py_eq (dict_get "code" err) (JNum 404) = true
      \/ mentions "does not exist" msg \/ mentions "not found" msg) ->
   maybe_retry_on_model_404 U 404 (JObj fields) requested default_model w
   = (Ret JNull, w)).
Proof.
  intros He Hm.
  destruct (is_model_not_found_on_error_object _ _ _ He Hm)
    as (found & Hrun & Hiff).
  assert (Hbody : py_or (JObj fields) (JObj []) = JObj fields).
  { unfold py_or. destruct fields; [discriminate | reflexivity]. }
  unfold maybe_retry_on_model_404. simpl. rewrite Hbody.
  unfold bind, lift. rewrite Hrun. split.
  - intros Hsig. apply Hiff in Hsig. subst found. simpl.
    destruct (refresh_spec U true w) as (w1 & Hr1 & _).
    destruct (resolve_model_eq U requested default_model w1)
      as (w2 & Hr2 & Hres).
    exists w1, w2. split; [assumption|]. split; [assumption|].
    simpl. rewrite Hr1, Hres. reflexivity.
  - intros Hno. destruct found; [|reflexivity].
    exfalso. apply Hno, Hiff. reflexivity.
Qed.

(** C5 at a body the code is not ready for.  The upstream answers 404
    with its error as a plain string, [{"error": "model 'x' not found"}]:
    [maybe_retry_on_model_404] raises [AttributeError], where the
    specification has it return none or the model resolved anew; the
    registry is not refreshed. *)
Theorem maybe_retry_raises_on_plain_error (U : upstream)
    (requested default_model : json) (w : world) :
  maybe_retry_on_model_404 U 404 Samples.plain_error requested default_model w
  = (Raise AttributeError, w).
Proof. reflexivity. Qed.

(** The same happens below an error object, when its message is not a
    string, although its code is 404. *)
Example maybe_retry_raises_on_odd_message (U : upstream)
    (requested default_model : json) (w : world) :
  maybe_retry_on_model_404 U 404
    (JObj [("error", JObj [("code", JNum 404); ("message", JNum 404)])])
    requested default_model w
  = (Raise AttributeError, w).
Proof. reflexivity. Qed.

(** vLLM's own answer is handled: the listing is fetched again and the
    model resolved anew. *)
Example maybe_retry_on_vllm_error :
  maybe_retry_on_model_404 (Samples.serving (Samples.listing ["m1"])) 404
    Samples.vllm_error (JStr "x") (JStr "y") (Samples.world_with [] 0)
  = (Ret (JStr "m1"),
     {| registry := Samples.registry_with [JStr "m1"] 100;
        log := [EvTime; EvTime; EvGet "http://vllm:8000/v1/models"] |}).
Proof. reflexivity. Qed.
End RegistryFacts.

(** ** The streaming relay *)

Module BackendFacts.
Import Py Eff Backend Spec.
Local Open Scope list_scope.

Lemma relay_filter (pending : list chunk) :
  relay pending = filter (fun c => negb (zero_length c)) pending.
Proof.
  induction pending as [|c pending IH]; simpl; [reflexivity|].
  destruct c; simpl; [assumption | now rewrite IH].
Qed.

Lemma relay_app (xs ys : list chunk) : relay (xs ++ ys) = relay xs ++ relay ys.
Proof. rewrite !relay_filter. apply filter_app. Qed.

(** A resumption reads the upstream up to its next chunk that is not empty,
    and no further. *)
Lemma next_chunk_spec (pending : list chunk) :
  match next_chunk pending with
  | Some (c, rest) =>
      exists skipped,
        pending = skipped ++ c :: rest /\
        Forall (fun s => s = []) skipped /\ c <> [] /\
        relay pending = c :: relay rest
  | None => Forall (fun s => s = []) pending /\ relay pending = []
  end.
Proof.
  induction pending as [|c pending IH]; simpl.
  - split; constructor.
  - destruct c as [|b c].
    + destruct (next_chunk pending) as [[c' rest]|].
      * destruct IH as (skipped & -> & Hs & Hc & Hr).
        exists ([] :: skipped). repeat split; auto.
      * destruct IH as [Hall Hr]. split; auto.
    + exists []. repeat split; [constructor | discriminate].
Qed.

(** C7. On a 2xx answer of the upstream the relay yields the chunks of the
    upstream that are not empty, in their order and as they are; the empty
    ones are dropped.  Each resumption hands over the next such chunk after
    reading no further than it, every chunk yielded is a chunk received, and
    at the end of the upstream's chunks the relay ends without a chunk of
    its own. *)
Theorem relay_passes_chunks_through
    (stream : stream_request -> stream_reply) (base_url path : string)
    (payload : json) (headers : list (string * string))
    (status : Z) (chunks : list chunk) (lost : bool) :
  stream (build_request base_url path payload headers)
  = Connected status chunks lost ->
  is_success status = true ->
  let yielded :=
    fst (stream_openai_sse stream base_url path payload headers) in
  yielded = filter (fun c => negb (zero_length c)) chunks /\
  (forall c, In c yielded -> In c chunks /\ c <> []) /\
  (forall xs ys, chunks = xs ++ ys -> yielded = relay xs ++ relay ys) /\
  (forall pending,
     match next_chunk pending with
     | Some (c, rest) =>
         exists skipped,
           pending = skipped ++ c :: rest /\
           Forall (fun s => s = []) skipped /\ c <> [] /\
           relay pending = c :: relay rest
     | None => Forall (fun s => s = []) pending /\ relay pending = []
     end) /\
  (chunks = [] -> yielded = []).
Proof.
  intros Hs Hok yielded. subst yielded.
  unfold stream_openai_sse, check_status. rewrite Hs, Hok. simpl.
  split; [apply relay_filter|]. split; [|split; [|split]].
  - intros c Hc. rewrite relay_filter in Hc. apply filter_In in Hc.
    destruct Hc as [Hin Hz]. split; [assumption|].
    intros ->. discriminate.
  - intros xs ys ->. apply relay_app.
  - apply next_chunk_spec.
  - intros ->. reflexivity.
Qed.

Lemma relay_passes_chunks_through_witness :
  fst (stream_openai_sse
         (fun _ => Connected 200 [["d"%byte; "1"%byte]; [];
                                  ["d"%byte; "2"%byte]; []] false)
         "http://vllm:8000" "/v1/chat/completions" (JObj []) [])
  = [["d"%byte; "1"%byte]; ["d"%byte; "2"%byte]].
Proof.
  match goal with
  | |- fst (stream_openai_sse ?s ?b ?p ?j ?h) = _ =>
      destruct (relay_passes_chunks_through s b p j h 200 _ false
                  eq_refl eq_refl) as [H _];
      rewrite H
  end.
  reflexivity.
Defined.

End BackendFacts.

(** ** The request router *)

Module RouterFacts.
Import Py Eff Registry Backend Router Spec PyFacts RegistryFacts.
Local Open Scope list_scope.

(** *** What the registry does makes no POST *)

Lemma no_post_refl (w : world) : no_post_since w w.
Proof. exists []. split; reflexivity. Qed.

Lemma no_post_trans (w1 w2 w3 : world) :
  no_post_since w1 w2 -> no_post_since w2 w3 -> no_post_since w1 w3.
Proof.
  intros (m1 & H1 & F1) (m2 & H2 & F2). exists (m2 ++ m1). split.
  - rewrite H2, H1, app_assoc. reflexivity.
  - rewrite forallb_app, F1, F2. reflexivity.
Qed.

Lemma no_post_step (w w' : world) (mid : list event) :
  log w' = mid ++ log w ->
  forallb (fun ev => negb (Gate.is_post ev)) mid = true ->
  no_post_since w w'.
Proof. intros H F. now exists mid. Qed.

Lemma no_post_count (w w' : world) :
  no_post_since w w' -> count_posts (log w') = count_posts (log w).
Proof.
  intros (mid & -> & F). unfold count_posts.
  induction mid as [|ev mid IH]; simpl in *; [reflexivity|].
  apply andb_true_iff in F. destruct F as [Hev F].
  destruct (Gate.is_post ev); [discriminate | auto].
Qed.

Lemma no_post_last (w w' : world) :
  no_post_since w w' -> last_post_log (log w') = last_post_log (log w).
Proof.
  intros (mid & -> & F).
  induction mid as [|ev mid IH]; simpl in *; [reflexivity|].
  apply andb_true_iff in F. destruct F as [Hev F].
  destruct (Gate.is_post ev); [discriminate | auto].
Qed.

Section WithUpstream.
Variable U : upstream.

Lemma fresh_and_unforced_no_post (force : bool) (w : world) :
  no_post_since w (snd (fresh_and_unforced U force w)).
Proof.
  destruct (fresh_and_unforced_reads U force w) as (b & pre & -> & Hp).
  apply (no_post_step _ _ pre); [reflexivity|].
  destruct Hp as [-> | ->]; reflexivity.
Qed.

Lemma refresh_loop_no_post (force : bool) (n : nat) :
  forall (last_exc : option exn) (w : world),
    no_post_since w (snd (refresh_loop U force n last_exc w)).
Proof.
  induction n as [|n IH]; intros last_exc w.
  - simpl. destruct last_exc as [e|].
    + apply (no_post_step _ _ [EvPrint e]); reflexivity.
    + apply no_post_refl.
  - cbn [refresh_loop]. unfold try_except. rewrite fetch_models_eq.
    destruct (listing_at U (log (after_get w))) as [ids|e].
    + destruct ids as [|i ids].
      * apply (no_post_step _ _ [EvGet (models_url w)]); reflexivity.
      * apply (no_post_step _ _ [EvTime; EvGet (models_url w)]); reflexivity.
    + destruct force.
      * eapply no_post_trans; [|apply IH].
        apply (no_post_step _ _ [EvSleep (retry_delay_sec (registry w));
                                 EvGet (models_url w)]); reflexivity.
      * eapply no_post_trans; [|apply IH].
        apply (no_post_step _ _ [EvGet (models_url w)]); reflexivity.
Qed.

Lemma refresh_no_post (force : bool) (w : world) :
  no_post_since w (snd (refresh U force w)).
Proof.
  unfold refresh, bind.
  pose proof (fresh_and_unforced_no_post force w) as H1.
  destruct (fresh_and_unforced_reads U force w) as (b1 & pre1 & E1 & _).
  rewrite E1 in *. simpl in H1. destruct b1; [assumption|].
  set (w1 := {| registry := registry w; log := pre1 ++ log w |}) in *.
  pose proof (fresh_and_unforced_no_post force w1) as H2.
  destruct (fresh_and_unforced_reads U force w1) as (b2 & pre2 & E2 & _).
  rewrite E2 in *. simpl in H2.
  destruct b2; [eapply no_post_trans; eassumption|].
  unfold get_registry.
  eapply no_post_trans; [eassumption|].
  eapply no_post_trans; [eassumption|].
  apply refresh_loop_no_post.
Qed.

Lemma resolve_model_no_post (requested default_model : json) (w : world) :
  no_post_since w (snd (resolve_model U requested default_model w)).
Proof.
  destruct (resolve_model_eq U requested default_model w) as (w' & Hr & ->).
  simpl. pose proof (refresh_no_post false w) as H. now rewrite Hr in H.
Qed.

Lemma maybe_retry_no_post (resp_status : Z)
    (resp_json requested default_model : json) (w : world) :
  no_post_since w
    (snd (maybe_retry_on_model_404 U resp_status resp_json requested
            default_model w)).
Proof.
  unfold maybe_retry_on_model_404.
  destruct (negb (resp_status =? 404)%Z); [apply no_post_refl|].
  unfold bind at 1, lift.
  destruct (_is_model_not_found_404 (py_or resp_json (JObj [])))
    as [found|e]; [|apply no_post_refl].
  destruct found; simpl; [|apply no_post_refl].
  unfold bind at 1.
  pose proof (refresh_no_post true w) as H1.
  destruct (refresh_spec U true w) as (w1 & Hr1 & _).
  rewrite Hr1 in *. simpl in H1.
  unfold bind at 1.
  pose proof (resolve_model_no_post requested default_model w1) as H2.
  destruct (resolve_model_eq U requested default_model w1) as (w2 & _ & Hr2).
  rewrite Hr2 in *. simpl in *.
  eapply no_post_trans; eassumption.
Qed.

End WithUpstream.


(** *** The Resolve step *)

Lemma resolve_phase_eq (U : upstream) (environ : list (string * string))
    (payload : list (string * json)) (w : world) :
  let default_model :=
    getenv environ "DEFAULT_MODEL" "Qwen/Qwen2.5-7B-Instruct" in
  let requested_model := dict_get "model" payload in
  exists resolved w',
    resolve_model U requested_model (JStr default_model) w = (Ret resolved, w')
    /\ resolve_phase U environ (JObj payload) w
       = (Ret (apply_resolved resolved default_model payload,
               requested_model, default_model), w').
Proof.
  intros default_model requested_model.
  destruct (resolve_model_eq U requested_model (JStr default_model) w)
    as (w' & _ & Hr).
  eexists _, w'. split; [exact Hr|].
  unfold resolve_phase, bind, lift. simpl.
  fold requested_model. fold default_model. rewrite Hr. reflexivity.
Qed.

(** C8, as stated, fails for a payload without a model field when nothing
    can be resolved: the empty default is written into it. *)
Lemma model_field_added_counterexample :
  let payload := [("messages", JArr [])] in
  let out :=
    resolve_phase Samples.quiet [("DEFAULT_MODEL", "")] (JObj payload)
      (Samples.world_with [] 0) in
  fst (resolve_model Samples.quiet (dict_get "model" payload) (JStr "")
         (Samples.world_with [] 0)) = Ret (JStr "") /\
  lookup "model" payload = None /\
  exists payload' requested default_model,
    fst out = Ret (payload', requested, default_model) /\
    lookup "model" payload' = Some (JStr "") /\
    payload' <> payload.
Proof.
  split; [reflexivity|]. split; [reflexivity|].
  eexists _, _, _. split; [reflexivity|]. split; [reflexivity | discriminate].
Qed.

Lemma apply_resolved_spec (resolved : json) (default_model : string)
    (payload : list (string * json)) :
  (truthy resolved = true ->
   lookup "model" (apply_resolved resolved default_model payload)
   = Some resolved) /\
  (truthy resolved = false ->
   (forall v, lookup "model" payload = Some v ->
              apply_resolved resolved default_model payload = payload) /\
   (lookup "model" payload = None ->
    lookup "model" (apply_resolved resolved default_model payload)
    = Some (JStr default_model))) /\
  (forall k, k <> "model"%string ->
             lookup k (apply_resolved resolved default_model payload)
             = lookup k payload).
Proof.
  unfold apply_resolved, dict_setdefault, has_key. split; [|split].
  - intros ->. apply lookup_set_same.
  - intros ->. split.
    + intros v ->. reflexivity.
    + intros ->. apply lookup_set_same.
  - intros k Hk. destruct (truthy resolved).
    + now apply lookup_set_other.
    + destruct (lookup "model" payload); [reflexivity|].
      now apply lookup_set_other.
Qed.

(** C8, as the code has it.  The Resolve step returns, with the payload
    settled as follows.  When the resolved model is not empty the payload's
    model is set to it.  When it is empty, a payload that came with a model
    field is left as it was, and a payload that came without one gets the
    configured default model as its model.  No other field of the payload
    changes. *)
Theorem resolve_step_sets_model (U : upstream)
    (environ : list (string * string)) (payload : list (string * json))
    (w : world) :
  let default_model :=
    getenv environ "DEFAULT_MODEL" "Qwen/Qwen2.5-7B-Instruct" in
  let requested_model := dict_get "model" payload in
  exists resolved payload' w',
    resolve_model U requested_model (JStr default_model) w = (Ret resolved, w')
    /\ resolve_phase U environ (JObj payload) w
       = (Ret (payload', requested_model, default_model), w')
    /\ (truthy resolved = true -> lookup "model" payload' = Some resolved)
    /\ (truthy resolved = false ->
        (forall v, lookup "model" payload = Some v -> payload' = payload) /\
        (lookup "model" payload = None ->
         lookup "model" payload' = Some (JStr default_model)))
    /\ (forall k, k <> "model"%string -> lookup k payload' = lookup k payload).
Proof.
  intros default_model requested_model.
  destruct (resolve_phase_eq U environ payload w) as (resolved & w' & Hr & Hp).
  exists resolved, (apply_resolved resolved default_model payload), w'.
  split; [exact Hr|]. split; [exact Hp|].
  apply apply_resolved_spec.
Qed.

Lemma resolve_step_sets_model_witness :
  exists payload' w',
    resolve_phase Samples.quiet [("DEFAULT_MODEL", "d")]
      (JObj [("stream", JBool true)]) (Samples.world_with [JStr ""] 0)
    = (Ret (payload', JNull, "d"%string), w') /\
    lookup "model" payload' = Some (JStr "d") /\
    lookup "stream" payload' = Some (JBool true).
Proof.
  destruct (resolve_step_sets_model Samples.quiet [("DEFAULT_MODEL", "d")]
              [("stream", JBool true)] (Samples.world_with [JStr ""] 0))
    as (resolved & payload' & w' & Hr & Hp & _ & Hempty & Hframe).
  exists payload', w'. split; [exact Hp|].
  assert (Hres : resolved = JStr "").
  { vm_compute in Hr. now injection Hr as <-. }
  subst resolved. destruct (Hempty eq_refl) as [_ Hnone].
  split; [apply Hnone; reflexivity|].
  rewrite Hframe; [reflexivity | discriminate].
Defined.

(** *** The buffered path *)

Lemma count_posts_cons_post (url : string) (p : json) (l : list event) :
  count_posts (EvPost url p :: l) = S (count_posts l).
Proof. reflexivity. Qed.

(** What the handler makes of an answer: its status as it is, and its JSON
    body as it is, or its text under ["raw"] when the body is not JSON. *)
Lemma emit_spelled (r : response) :
  emit r
  = JSONResponse
      match body_json r with
      | Some content => content
      | None => JObj [("raw", JStr (text r))]
      end (status_code r).
Proof. unfold emit. destruct (body_json r); reflexivity. Qed.

(** C2. On the buffered path the router posts to the upstream once or
    twice.  It posts a second time exactly when the first answer has status
    404 and [maybe_retry_on_model_404] returns a model that is not empty and
    differs from the payload's; the second POST carries the payload with its
    model set to that one, and nothing follows it.  What the handler returns
    is the last answer received: a JSON response with the status of that
    answer and its JSON body as it is (its text under ["raw"] when the body
    is not JSON); it fails only when the upstream cannot be reached or
    [maybe_retry_on_model_404] raises. *)
Theorem buffered_posts_at_most_twice (U : upstream)
    (environ : list (string * string)) (payload : list (string * json))
    (requested_model : json) (default_model : string) (w : world) :
  let out := buffered U environ payload requested_model default_model w in
  let url := chat_url environ in
  let w1 := {| registry := registry w;
               log := EvPost url (JObj payload) :: log w |} in
  let retry (r : response) (new_model : json) (w2 : world) : Prop :=
    serve U (log w1) = Answered r /\ status_code r = 404%Z /\
    maybe_retry_on_model_404 U 404 (resp_json_of r) requested_model
      (JStr default_model) w1 = (Ret new_model, w2) /\
    truthy new_model = true /\
    py_eq new_model (dict_get "model" payload) = false in
  (count_posts (log (snd out)) = (count_posts (log w) + 1)%nat \/
   count_posts (log (snd out)) = (count_posts (log w) + 2)%nat) /\
  (count_posts (log (snd out)) = (count_posts (log w) + 2)%nat <->
   exists r new_model w2, retry r new_model w2) /\
  (forall r new_model w2,
     retry r new_model w2 ->
     log (snd out)
     = EvPost url (JObj (dict_set "model" new_model payload)) :: log w2) /\
  (forall resp,
     fst out = Ret resp ->
     exists r,
       serve U (last_post_log (log (snd out))) = Answered r /\
       resp = JSONResponse
                match body_json r with
                | Some content => content
                | None => JObj [("raw", JStr (text r))]
                end (status_code r)) /\
  (forall e,
     fst out = Raise e ->
     (serve U (last_post_log (log (snd out))) = Unreachable
      /\ e = TransportError) \/
     (exists r w2,
        serve U (log w1) = Answered r /\ status_code r = 404%Z /\
        maybe_retry_on_model_404 U 404 (resp_json_of r) requested_model
          (JStr default_model) w1 = (Raise e, w2))).
Proof.
  intros out url w1 retry.
  assert (Hout : out = buffered U environ payload requested_model
                         default_model w) by reflexivity.
  unfold buffered, bind, http_post, bind, do_event, answer in Hout.
  fold (chat_url environ) in Hout. fold url in Hout. simpl in Hout.
  change {| registry := registry w;
            log := EvPost url (JObj payload) :: log w |} with w1 in Hout.
  change (EvPost url (JObj payload) :: log w) with (log w1) in Hout.
  assert (Hc1 : count_posts (log w1) = S (count_posts (log w)))
    by reflexivity.
  assert (Hl1 : last_post_log (log w1) = log w1) by reflexivity.
  clearbody out w1.
  destruct (serve U (log w1)) as [r|] eqn:S1.
  2:{ (* the upstream cannot be reached *)
      cbv beta iota zeta delta [ret] in Hout. subst out. cbn [fst snd]. rewrite Hc1, Hl1, S1.
      split; [left; lia|]. split; [|split; [|split]].
      - split; [lia|]. intros (r & nm & w2 & [=] & _).
      - intros r nm w2 ([=] & _).
      - intros resp [=].
      - intros e [= <-]. left. split; reflexivity. }
  destruct (status_code r =? 404)%Z eqn:E404.
  2:{ (* an answer that is not a 404 *)
      apply Z.eqb_neq in E404.
      cbv beta iota zeta delta [ret] in Hout. subst out. cbn [fst snd]. rewrite Hc1, Hl1, S1.
      split; [left; lia|]. split; [|split; [|split]].
      - split; [lia|]. intros (r' & nm & w2 & [= <-] & H404 & _).
        contradiction.
      - intros r' nm w2 ([= <-] & H404 & _). contradiction.
      - intros resp [= <-]. exists r. split; [easy | apply emit_spelled].
      - intros e [=]. }
  apply Z.eqb_eq in E404. rewrite E404 in Hout.
  change (match body_json r with Some j => j | None => JNull end)
    with (resp_json_of r) in Hout.
  pose proof (maybe_retry_no_post U 404 (resp_json_of r) requested_model
                (JStr default_model) w1) as Hquiet.
  destruct (maybe_retry_on_model_404 U 404 (resp_json_of r) requested_model
              (JStr default_model) w1) as [[nm|e] w2] eqn:MR;
    cbn [snd] in Hquiet.
  2:{ (* the retry helper raised *)
      cbv beta iota zeta delta [ret] in Hout. subst out. cbn [fst snd].
      rewrite (no_post_count _ _ Hquiet), (no_post_last _ _ Hquiet), Hc1, Hl1, S1.
      split; [left; lia|]. split; [|split; [|split]].
      - split; [lia|]. intros (r' & nm & w2' & Hs & _ & Hmr & _).
        injection Hs as <-. rewrite MR in Hmr. discriminate.
      - intros r' nm w2' (Hs & _ & Hmr & _).
        injection Hs as <-. rewrite MR in Hmr. discriminate.
      - intros resp [=].
      - intros e' [= <-]. right. now exists r, w2. }
  destruct (truthy nm && negb (py_eq nm (dict_get "model" payload)))
    eqn:Cond.
  2:{ (* no other model to try *)
      cbv beta iota zeta delta [ret] in Hout. subst out. cbn [fst snd].
      rewrite (no_post_count _ _ Hquiet), (no_post_last _ _ Hquiet), Hc1, Hl1, S1.
      assert (Hno : forall r' nm' w2', retry r' nm' w2' -> False).
      { intros r' nm' w2' (Hs & _ & Hmr & Ht & Hne).
        injection Hs as <-. rewrite MR in Hmr. injection Hmr as <- <-.
        rewrite Ht, Hne in Cond. discriminate. }
      split; [left; lia|]. split; [|split; [|split]].
      - split; [lia|]. intros (r' & nm' & w2' & H). now apply Hno in H.
      - intros r' nm' w2' H. now apply Hno in H.
      - intros resp [= <-]. exists r. split; [easy | apply emit_spelled].
      - intros e [=]. }
  (* a second POST, with the model resolved anew *)
  apply andb_true_iff in Cond. destruct Cond as [Ht Hne].
  apply negb_true_iff in Hne.
  assert (Hretry : retry r nm w2) by (repeat split; assumption).
  set (l3 := EvPost url (JObj (dict_set "model" nm payload)) :: log w2) in *.
  assert (Hc3 : count_posts l3 = (count_posts (log w) + 2)%nat).
  { unfold l3. rewrite count_posts_cons_post, (no_post_count _ _ Hquiet), Hc1.
    lia. }
  assert (Hl3 : last_post_log l3 = l3) by reflexivity.
  assert (Hsame : forall r' nm' w2',
             retry r' nm' w2' ->
             EvPost url (JObj (dict_set "model" nm' payload)) :: log w2' = l3).
  { intros r' nm' w2' (Hs & _ & Hmr & _).
    injection Hs as <-. rewrite MR in Hmr. injection Hmr as <- <-.
    reflexivity. }
  destruct (serve U l3) as [r2|] eqn:S2;
    cbv beta iota zeta delta [ret] in Hout; subst out; cbn [fst snd log];
    rewrite Hc3, Hl3, S2.
  - split; [right; reflexivity|]. split; [|split; [|split]].
    + split; [intros _; now exists r, nm, w2 | reflexivity].
    + intros r' nm' w2' H. symmetry. now apply (Hsame r').
    + intros resp [= <-]. exists r2. split; [easy | apply emit_spelled].
    + intros e [=].
  - split; [right; reflexivity|]. split; [|split; [|split]].
    + split; [intros _; now exists r, nm, w2 | reflexivity].
    + intros r' nm' w2' H. symmetry. now apply (Hsame r').
    + intros resp [=].
    + intros e [= <-]. left. split; reflexivity.
Qed.

(** A request for a model the upstream does not serve: one 404, the model
    resolved anew, a second POST, and its answer handed back. *)
Lemma buffered_posts_at_most_twice_witness :
  let out :=
    buffered Samples.only_m1 [] [("model", JStr "x")] (JStr "x") "y"
      (Samples.world_with [] 0) in
  count_posts (log (snd out)) = 2%nat /\
  exists r,
    serve Samples.only_m1 (last_post_log (log (snd out))) = Answered r /\
    JSONResponse Samples.completion 200
    = JSONResponse
        match body_json r with
        | Some content => content
        | None => JObj [("raw", JStr (text r))]
        end (status_code r).
Proof.
  intros out.
  destruct (buffered_posts_at_most_twice Samples.only_m1 []
              [("model", JStr "x")] (JStr "x") "y" (Samples.world_with [] 0))
    as (_ & Htwice & _ & Hret & _).
  split.
  - apply Htwice.
    exists {| status_code := 404; text := ""%string;
              body_json := Some Samples.vllm_error |}, (JStr "m1").
    eexists. repeat split.
  - apply Hret. reflexivity.
Defined.

Example buffered_run :
  buffered Samples.only_m1 [] [("model", JStr "x")] (JStr "x") "y"
    (Samples.world_with [] 0)
  = (Ret (JSONResponse Samples.completion 200),
     {| registry := Samples.registry_with [JStr "m1"] 100;
        log := [EvPost "http://vllm:8000/v1/chat/completions"
                  (JObj [("model", JStr "m1")]);
                EvTime; EvTime;
                EvGet "http://vllm:8000/v1/models";
                EvPost "http://vllm:8000/v1/chat/completions"
                  (JObj [("model", JStr "x")])] |}).
Proof. reflexivity. Qed.

(** The whole handler on the same request, the system message off. *)
Example chat_completions_run :
  fst (chat_completions Samples.only_m1 (fun _ => NoConnection)
         [("FORCE_JA", "0")] "" (JObj [("model", JStr "x")])
         (Samples.world_with [] 0))
  = Ret (JSONResponse Samples.completion 200).
Proof. reflexivity. Qed.
End RouterFacts.

(** ** Concurrent calls of [refresh] *)

Module GateFacts.
Import Py Eff Registry Gate Spec RegistryFacts.
Local Open Scope list_scope.
Local Open Scope nat_scope.

Lemma attempts_pos (reg : ModelRegistry) (f : bool) :
  exists m, attempts reg f = S m.
Proof.
  unfold attempts.
  destruct (Z.to_nat (Z.max 1 (if f then retries reg else 1))) eqn:E.
  - lia.
  - now eexists.
Qed.

Lemma set_task_length (i : nat) (t : task) (ts : list task) :
  List.length (set_task i t ts) = List.length ts.
Proof.
  revert i. induction ts as [|t0 ts IH]; intros [|i]; simpl; auto.
Qed.

Lemma total_set_task (f : pc -> nat) (i : nat) (t t' : task) (ts : list task) :
  nth_error ts i = Some t ->
  total f (set_task i t' ts) + f (at_pc t) = total f ts + f (at_pc t').
Proof.
  unfold total. revert i. induction ts as [|t0 ts IH]; intros [|i] H;
    simpl in *; try discriminate.
  - injection H as ->. lia.
  - specialize (IH _ H). lia.
Qed.

Lemma total_in (f : pc -> nat) (t : task) (ts : list task) :
  In t ts -> f (at_pc t) <= total f ts.
Proof.
  unfold total. induction ts as [|t0 ts IH]; simpl; [contradiction|].
  intros [-> | H]; [lia | specialize (IH H); lia].
Qed.

Lemma set_task_in (i : nat) (t' t : task) (ts : list task) :
  In t (set_task i t' ts) -> t = t' \/ In t ts.
Proof.
  revert i. induction ts as [|t0 ts IH]; intros [|i]; simpl; auto.
  - intros [<- | H]; auto.
  - intros [<- | H]; auto. destruct (IH _ H); auto.
Qed.

Lemma count_gets_cons (ev : event) (l : list event) :
  count_gets (ev :: l) = (if is_get ev then 1 else 0) + count_gets l.
Proof. unfold count_gets. simpl. destruct (is_get ev); reflexivity. Qed.

(** *** One call alone is [refresh] *)

Section Solo.
Variable U : upstream.

Lemma resume_solo (f : bool) (p : pc) (lk : bool) (w : world) (l : leg) :
  resume_task U {| force := f; at_pc := p |} lk w = Some l ->
  resume U (solo f (p, lk, w)) 0 = Some (solo f l).
Proof.
  intros H. unfold resume, solo. simpl. rewrite H.
  destruct l as [[p' lk'] w']. reflexivity.
Qed.

Lemma solo_rounds (f : bool) (n : nat) :
  forall (last_exc : option exn) (w : world),
  exists k st,
    run U (repeat 0 k) (solo f (start_round U n last_exc w)) = Some st /\
    all_finished st = true /\ locked st = false /\
    shared st = snd (refresh_loop U f n last_exc w).
Proof.
  induction n as [|n IH]; intros last_exc w.
  - exists 0. destruct last_exc as [e|]; eexists; repeat split.
  - cbn [start_round refresh_loop]. unfold try_except.
    rewrite fetch_models_eq. unfold listing_at.
    change (snd (do_event (EvGet (base_url (registry w) ++ "/v1/models")) w))
      with (after_get w).
    set (w1 := after_get w).
    set (rep := serve U (log w1)).
    assert (Hleg : resume U (solo f (Fetching n rep, true, w1)) 0
                   = Some (solo f (fetched U f n rep w1)))
      by (apply resume_solo; reflexivity).
    unfold fetched in Hleg.
    destruct (match rep with
              | Answered r => parse_models r
              | Unreachable => Raise TransportError
              end) as [ids|e].
    + (* the listing arrived *)
      exists 1. destruct ids as [|i ids]; cbn [repeat run]; rewrite Hleg;
        eexists; repeat split.
    + destruct f.
      * (* forced: sleep, then the next round *)
        set (w2 := snd (sleep (retry_delay_sec (registry w1)) w1)) in *.
        destruct (IH (Some e) w2) as (k & st & Hrun & Hfin & Hlk & Hsh).
        assert (Hleg2 : resume U (solo true (Sleeping n e, true, w2)) 0
                        = Some (solo true (start_round U n (Some e) w2)))
          by (apply resume_solo; reflexivity).
        exists (S (S k)), st. cbn [repeat run]. rewrite Hleg, Hleg2.
        repeat split; assumption.
      * (* not forced: the next round at once *)
        destruct (IH (Some e) w1) as (k & st & Hrun & Hfin & Hlk & Hsh).
        exists (S k), st. cbn [repeat run]. rewrite Hleg.
        repeat split; assumption.
Qed.

(** A call of [refresh] alone on the loop comes to its end, leaves the lock
    free and the world as [refresh] leaves it. *)
Lemma solo_is_refresh (f : bool) (w : world) :
  exists k st,
    run U (repeat 0 k) (calls f 1 w) = Some st /\
    all_finished st = true /\ locked st = false /\
    shared st = snd (refresh U f w).
Proof.
  change (calls f 1 w) with (solo f (Called, false, w)).
  unfold refresh, bind.
  destruct (fresh_and_unforced_reads U f w) as (b1 & pre1 & E1 & _).
  set (w1 := {| registry := registry w; log := pre1 ++ log w |}) in *.
  destruct b1.
  - (* fresh *)
    assert (Hleg : resume U (solo f (Called, false, w)) 0
                   = Some (solo f (Returned, false, w1))).
    { apply resume_solo. cbn [resume_task at_pc force]. rewrite E1.
      reflexivity. }
    exists 1. eexists. cbn [repeat run]. rewrite Hleg, E1.
    repeat split.
  - destruct (fresh_and_unforced_reads U f w1) as (b2 & pre2 & E2 & _).
    set (w2 := {| registry := registry w1; log := pre2 ++ log w1 |}) in *.
    rewrite E1, E2. destruct b2.
    + assert (Hleg : resume U (solo f (Called, false, w)) 0
                     = Some (solo f (Returned, false, w2))).
      { apply resume_solo. cbn [resume_task at_pc force]. rewrite E1.
        unfold enter. fold w1. rewrite E2.
        reflexivity. }
      exists 1. eexists. cbn [repeat run]. rewrite Hleg. repeat split.
    + assert (Hleg : resume U (solo f (Called, false, w)) 0
                     = Some (solo f (start_round U (attempts (registry w2) f)
                                       None w2))).
      { apply resume_solo. cbn [resume_task at_pc force]. rewrite E1.
        unfold enter. fold w1. rewrite E2.
        reflexivity. }
      destruct (solo_rounds f (attempts (registry w2) f) None w2)
        as (k & st & Hrun & Hfin & Hlk & Hsh).
      exists (S k), st. cbn [repeat run]. rewrite Hleg.
      repeat split; assumption.
Qed.

End Solo.

Section WithUpstream.
Variable U : upstream.
Hypothesis Hup : never_fails U.

(** One resumption of a forced call. *)
Lemma resume_forced (t : task) (lk lk' : bool) (w w' : world) (p : pc) :
  force t = true -> on_course (at_pc t) ->
  (flight (at_pc t) = 1 -> lk = true) ->
  resume_task U t lk w = Some (p, lk', w') ->
  on_course p /\
  count_gets (log w') + fetches (at_pc t) = count_gets (log w) + fetches p /\
  Nat.b2n lk' + flight (at_pc t) = Nat.b2n lk + flight p.
Proof.
  intros Hf Hc Hlk Hr. unfold resume_task in Hr. rewrite Hf in Hr.
  assert (Henter : forall w0,
            exists m rep,
              enter U true w0 = (Fetching m rep, true, after_get w0) /\
              on_course (Fetching m rep)).
  { intros w0. unfold enter. simpl.
    destruct (attempts_pos (registry w0) true) as [m ->].
    exists m, (serve U (log (after_get w0))). split; [reflexivity|].
    destruct (Hup (log (after_get w0))) as (r & ids & -> & Hids).
    now exists r, ids. }
  assert (Hget : forall w0,
            count_gets (log (after_get w0)) = S (count_gets (log w0)))
    by reflexivity.
  destruct (at_pc t) as [| | more rep | more e | |] eqn:Hp;
    simpl in Hc; try contradiction; try discriminate.
  - (* called *)
    simpl in Hr. destruct lk.
    + injection Hr as <- <- <-. simpl. repeat split; lia.
    + destruct (Henter w) as (m & rep & Hm & Hoc). rewrite Hm in Hr.
      injection Hr as <- <- <-. rewrite Hget.
      split; [exact Hoc | simpl; split; lia].
  - (* queued *)
    destruct lk; [discriminate|].
    destruct (Henter w) as (m & rep & Hm & Hoc). rewrite Hm in Hr.
    injection Hr as <- <- <-. rewrite Hget.
    split; [exact Hoc | simpl; split; lia].
  - (* the listing has arrived *)
    rewrite (Hlk eq_refl). destruct Hc as (r & ids & -> & Hids).
    unfold fetched in Hr. rewrite Hids in Hr.
    destruct ids as [|i ids]; simpl in Hr; injection Hr as <- <- <-;
      simpl; repeat split; lia.
Qed.

Lemma steady_calls (n : nat) (w : world) :
  steady (count_gets (log w)) n (calls true n w).
Proof.
  unfold steady, calls. simpl. split; [apply repeat_length|].
  assert (Hz : forall f, f Called = 0 ->
            total f (repeat {| force := true; at_pc := Called |} n) = 0).
  { intros f Hf. unfold total. induction n; simpl; [reflexivity|].
    rewrite Hf. assumption. }
  split; [|split].
  - intros t Ht. apply repeat_spec in Ht. subst t. simpl. auto.
  - rewrite Hz; [lia | reflexivity].
  - rewrite Hz; reflexivity.
Qed.

Lemma steady_step (g0 n : nat) (st st' : state) :
  steady g0 n st -> step U st st' -> steady g0 n st'.
Proof.
  intros (Hlen & Hall & Hgets & Hlock) [i Hres]. unfold resume in Hres.
  destruct (nth_error (tasks st) i) as [t|] eqn:Hnth; [|discriminate].
  destruct (resume_task U t (locked st) (shared st)) as [[[p lk'] w']|] eqn:Hrt;
    [|discriminate].
  injection Hres as <-.
  pose proof (nth_error_In _ _ Hnth) as Hin.
  destruct (Hall t Hin) as [Hf Hc].
  assert (Hlk : flight (at_pc t) = 1 -> locked st = true).
  { intros H1. pose proof (total_in flight t _ Hin) as Hle.
    rewrite Hlock, H1 in Hle. destruct (locked st); [reflexivity|].
    simpl in Hle. lia. }
  destruct (resume_forced t _ _ _ _ _ Hf Hc Hlk Hrt) as (Hc' & Hg' & Hl').
  set (t' := {| force := force t; at_pc := p |}).
  pose proof (total_set_task fetches i t t' _ Hnth) as Hsf.
  pose proof (total_set_task flight i t t' _ Hnth) as Hsl.
  unfold steady. simpl. split; [|split; [|split]].
  - rewrite set_task_length. assumption.
  - intros t0 H0. apply set_task_in in H0. destruct H0 as [-> | H0].
    + subst t'. simpl. auto.
    + auto.
  - subst t'. simpl in *. lia.
  - subst t'. simpl in *. lia.
Qed.

Lemma steady_reachable (g0 n : nat) (st st' : state) :
  steady g0 n st -> reachable U st st' -> steady g0 n st'.
Proof.
  intros H Hr. induction Hr as [|st1 st2 Hstep _ IH]; [assumption|].
  eapply steady_step; eassumption.
Qed.

Lemma reachable_after_step (st st1 st' : state) :
  step U st st1 -> reachable U st1 st' -> reachable U st st'.
Proof.
  intros Hs Hr. induction Hr as [|a b Hab _ IH].
  - apply rtn1_trans with st; [assumption | constructor].
  - apply rtn1_trans with a; assumption.
Qed.

Lemma run_reachable (sched : list nat) (st st' : state) :
  run U sched st = Some st' -> reachable U st st'.
Proof.
  revert st. induction sched as [|i sched IH]; intros st H; simpl in H.
  - injection H as <-. constructor.
  - destruct (resume U st i) as [st1|] eqn:Hres; [|discriminate].
    apply reachable_after_step with st1; [now exists i | now apply IH].
Qed.

Lemma nth_error_middle (done rest : list task) (t : task) :
  nth_error (done ++ t :: rest) (List.length done) = Some t.
Proof. induction done as [|d done IH]; simpl; auto. Qed.

Lemma set_task_middle (done rest : list task) (t t' : task) :
  set_task (List.length done) t' (done ++ t :: rest) = done ++ t' :: rest.
Proof. induction done as [|d done IH]; simpl; [reflexivity | now rewrite IH]. Qed.

(** A forced call that finds [_lock] free runs to its end in two
    resumptions. *)
Lemma run_one_call (done rest : list task) (w : world) :
  exists w',
    run U [List.length done; List.length done]
      {| shared := w; locked := false;
         tasks := done ++ {| force := true; at_pc := Called |} :: rest |}
    = Some {| shared := w'; locked := false;
              tasks := done ++ {| force := true; at_pc := Returned |} :: rest |}.
Proof.
  unfold run, resume. cbn [tasks locked shared].
  rewrite nth_error_middle. cbn [resume_task at_pc force fresh_and_unforced negb ret].
  unfold enter. cbn [fresh_and_unforced negb ret].
  destruct (attempts_pos (registry w) true) as [m ->].
  cbn [start_round]. rewrite set_task_middle.
  cbn [tasks locked shared]. rewrite nth_error_middle.
  cbn [resume_task at_pc force].
  match goal with
  | |- context [serve U ?l] =>
      destruct (Hup l) as (r & ids & -> & Hids)
  end.
  unfold fetched. rewrite Hids.
  destruct ids as [|i ids]; cbv beta iota zeta delta [truthy time_time];
    rewrite set_task_middle; eexists; reflexivity.
Qed.

Lemma run_one_by_one (n : nat) :
  forall (done : list task) (w : world),
    forallb finished done = true ->
    exists st,
      run U (one_by_one (List.length done) n)
        {| shared := w; locked := false;
           tasks := done ++ repeat {| force := true; at_pc := Called |} n |}
      = Some st /\ all_finished st = true.
Proof.
  induction n as [|n IH]; intros done w Hdone.
  - eexists. split; [reflexivity|].
    unfold all_finished. simpl. now rewrite app_nil_r.
  - destruct (run_one_call done
                (repeat {| force := true; at_pc := Called |} n) w)
      as [w' Hrun].
    cbn [one_by_one repeat].
    set (k := List.length done) in *.
    cbn [run] in *.
    destruct (resume U _ k) as [st1|]; [|discriminate].
    destruct (resume U st1 k) as [st2|]; [|discriminate].
    injection Hrun as ->.
    specialize (IH (done ++ [{| force := true; at_pc := Returned |}]) w').
    rewrite length_app, <- app_assoc in IH. simpl in IH.
    replace (List.length done + 1) with (S k) in IH by (subst k; lia).
    apply IH. rewrite forallb_app, Hdone. reflexivity.
Qed.

Lemma total_fetches_finished (ts : list task) :
  (forall t, In t ts -> on_course (at_pc t)) ->
  forallb finished ts = true ->
  total fetches ts = List.length ts.
Proof.
  unfold total. induction ts as [|t ts IH]; intros Hall Hfin; simpl in *;
    [reflexivity|].
  apply andb_true_iff in Hfin. destruct Hfin as [Ht Hts].
  rewrite IH by auto. f_equal.
  pose proof (Hall t (or_introl eq_refl)) as Hc.
  unfold finished in Ht. destruct (at_pc t); simpl in *;
    try discriminate; try contradiction; reflexivity.
Qed.

Lemma steady_finished (g0 n : nat) (st : state) :
  steady g0 n st -> all_finished st = true ->
  count_gets (log (shared st)) = g0 + n.
Proof.
  intros (Hlen & Hall & Hgets & _) Hfin. rewrite Hgets, <- Hlen. f_equal.
  apply total_fetches_finished; [|assumption].
  intros t Ht. now apply Hall.
Qed.

End WithUpstream.


Lemma serving_listing_never_fails (ids : list string) :
  never_fails (Samples.serving (Samples.listing ids)).
Proof. intros l. eexists _, _. split; reflexivity. Qed.

(** C3, as stated, fails already for two calls.  The upstream never fails.
    Both forced calls have started before either has finished: the first
    holds the lock with its GET under way, the second waits for the lock.
    When the first is done the second makes a GET of its own: two in
    all. *)
Lemma two_forced_calls_fetch_twice :
  let U := Samples.serving (Samples.listing ["m1"]) in
  let w := Samples.world_with [] 0 in
  never_fails U /\
  exists mid st,
    run U [0; 1] (calls true 2 w) = Some mid /\
    existsb not_started (tasks mid) = false /\
    existsb finished (tasks mid) = false /\
    run U [0; 1; 1] mid = Some st /\
    all_finished st = true /\
    count_gets (log (shared st)) = 2 /\
    count_gets (log (shared st)) <> 1.
Proof.
  split; [apply serving_listing_never_fails|].
  eexists _, _. split; [reflexivity|].
  split; [reflexivity|]. split; [reflexivity|]. split; [reflexivity|].
  split; [reflexivity|]. split; [reflexivity | discriminate].
Qed.

(** C3, as the code has it.  When the upstream never fails, [n] concurrent
    calls of [refresh(force=True)] make [n] GETs of the listing in all, one
    each, whatever the order in which the loop resumes them: a call that
    finds a fetch under way waits for the lock, and then fetches for
    itself (only a call that is not forced skips its fetch, when it finds
    the cache fresh once it has the lock).  At most one fetch is under way
    at any time.  And the calls can all be run to their end. *)
Theorem forced_calls_fetch_once_each (U : upstream) (w : world) (n : nat) :
  never_fails U ->
  (forall st,
     reachable U (calls true n w) st ->
     total flight (tasks st) <= 1 /\
     (all_finished st = true ->
      count_gets (log (shared st)) = count_gets (log w) + n)) /\
  (exists st, reachable U (calls true n w) st /\ all_finished st = true).
Proof.
  intros Hup. split.
  - intros st Hr.
    pose proof (steady_reachable U Hup _ _ _ _ (steady_calls n w) Hr) as Hs.
    split.
    + destruct Hs as (_ & _ & _ & ->). destruct (locked st); simpl; lia.
    + now apply steady_finished.
  - destruct (run_one_by_one U Hup n [] w eq_refl) as (st & Hrun & Hfin).
    exists st. split; [|assumption].
    apply (run_reachable U _ _ _ Hrun).
Qed.

Lemma forced_calls_fetch_once_each_witness :
  exists st,
    reachable (Samples.serving (Samples.listing ["m1"]))
      (calls true 3 (Samples.world_with [] 0)) st /\
    all_finished st = true /\
    count_gets (log (shared st)) = 3.
Proof.
  destruct (forced_calls_fetch_once_each
              (Samples.serving (Samples.listing ["m1"]))
              (Samples.world_with [] 0) 3
              (serving_listing_never_fails ["m1"]))
    as (Hall & st & Hr & Hfin).
  exists st. split; [assumption|]. split; [assumption|].
  now apply (Hall st Hr).
Defined.

(** Two calls that are not forced, on a stale cache: the second waits for
    the lock, finds the cache fresh when it gets it, and makes no GET. *)
Example unforced_calls_share_one_fetch :
  let U := Samples.serving (Samples.listing ["m1"]) in
  exists st,
    run U [0; 1; 0; 1] (calls false 2 (Samples.world_with [] 0)) = Some st /\
    all_finished st = true /\
    count_gets (log (shared st)) = 1.
Proof. eexists. repeat split. Qed.

End GateFacts.

(** * Further properties of the code *)

(** ** The model registry, beyond the specification's claims *)

Module RegistryMore.
Import Py Eff Registry Spec PyFacts RegistryFacts RouterFacts.
Local Open Scope list_scope.

Lemma same_config_refl (r : ModelRegistry) : same_config r r.
Proof. repeat split. Qed.

Lemma same_config_trans (r1 r2 r3 : ModelRegistry) :
  same_config r1 r2 -> same_config r2 r3 -> same_config r1 r3.
Proof.
  unfold same_config. intros (A1 & A2 & A3 & A4) (B1 & B2 & B3 & B4).
  repeat split; congruence.
Qed.

Lemma count_gets_app (l1 l2 : list event) :
  count_gets (l1 ++ l2) = (count_gets l1 + count_gets l2)%nat.
Proof. unfold count_gets. now rewrite filter_app, length_app. Qed.

Lemma count_sleeps_app (l1 l2 : list event) :
  count_sleeps (l1 ++ l2) = (count_sleeps l1 + count_sleeps l2)%nat.
Proof. unfold count_sleeps. now rewrite filter_app, length_app. Qed.

Lemma attempts_positive (reg : ModelRegistry) (f : bool) :
  exists m, attempts reg f = S m.
Proof.
  unfold attempts.
  destruct (Z.to_nat (Z.max 1 (if f then retries reg else 1))) eqn:E.
  - lia.
  - now eexists.
Qed.

Section WithUpstream.
Variable U : upstream.

(** What one run of the retry loop adds to the log, and that it keeps
    the settings. *)
Lemma refresh_loop_budget (force : bool) (n : nat) :
  forall (last_exc : option exn) (w : world),
    let w' := snd (refresh_loop U force n last_exc w) in
    same_config (registry w) (registry w') /\
    exists added,
      log w' = added ++ log w /\
      (count_gets added <= n)%nat /\
      (count_sleeps added <= count_gets added)%nat /\
      (force = false -> count_sleeps added = 0%nat) /\
      (n <> 0%nat -> (1 <= count_gets added)%nat).
Proof.
  assert (Hfew : forall (w w' : world) added,
            registry w' = registry w \/
            (exists ids t, registry w' = with_cache (registry w) ids t) ->
            log w' = added ++ log w ->
            count_sleeps added = 0%nat ->
            forall k, (count_gets added <= k)%nat ->
            (k <> 0%nat -> (1 <= count_gets added)%nat) ->
            same_config (registry w) (registry w') /\
            exists added,
              log w' = added ++ log w /\
              (count_gets added <= k)%nat /\
              (count_sleeps added <= count_gets added)%nat /\
              (force = false -> count_sleeps added = 0%nat) /\
              (k <> 0%nat -> (1 <= count_gets added)%nat)).
  { intros w w' added Hr Hl Hs k Hg Hk. split.
    - destruct Hr as [-> | (ids & t & ->)]; repeat split.
    - exists added. repeat split; auto. lia. }
  induction n as [|n IH]; intros last_exc w w'; subst w'.
  - cbn [refresh_loop]. destruct last_exc as [e|].
    + apply (Hfew w _ [EvPrint e]); auto. congruence.
    + apply (Hfew w _ []); auto. congruence.
  - cbn [refresh_loop]. unfold try_except. rewrite fetch_models_eq.
    destruct (listing_at U (log (after_get w))) as [ids|e].
    + destruct ids as [|i ids].
      * apply (Hfew w _ [EvGet (models_url w)]); auto.
        unfold count_gets. simpl. lia.
      * apply (Hfew w _ [EvTime; EvGet (models_url w)]).
        -- right. now eexists _, _.
        -- reflexivity.
        -- reflexivity.
        -- unfold count_gets. simpl. lia.
        -- intros _. unfold count_gets. simpl. lia.
    + destruct force.
      * set (w1 := {| registry := registry w;
                      log := EvSleep (retry_delay_sec (registry w))
                             :: EvGet (models_url w) :: log w |}).
        destruct (IH (Some e) w1) as (Hc & added & Hl & Hg & Hs & _ & _).
        change ((bind (bind get_registry
                         (fun reg => sleep (retry_delay_sec reg)))
                   (fun _ => refresh_loop U true n (Some e))) (after_get w))
          with (refresh_loop U true n (Some e) w1).
        split; [exact Hc|].
        exists (added ++ [EvSleep (retry_delay_sec (registry w));
                          EvGet (models_url w)]).
        rewrite Hl, count_gets_app, count_sleeps_app.
        unfold count_gets at 2 4 6, count_sleeps at 2. simpl.
        rewrite <- app_assoc.
        repeat split; try reflexivity; try lia.
      * destruct (IH (Some e) (after_get w))
          as (Hc & added & Hl & Hg & Hs & Hn & _).
        change ((bind (ret tt) (fun _ => refresh_loop U false n (Some e)))
                  (after_get w))
          with (refresh_loop U false n (Some e) (after_get w)).
        split; [exact Hc|].
        exists (added ++ [EvGet (models_url w)]).
        rewrite Hl, count_gets_app, count_sleeps_app.
        unfold count_gets at 2 4 6, count_sleeps at 2. simpl.
        rewrite <- app_assoc. specialize (Hn eq_refl).
        repeat split; try reflexivity; try lia.
        intros _. rewrite Hn. reflexivity.
Qed.

Lemma refresh_budget (force : bool) (w : world) :
  let w' := snd (refresh U force w) in
  same_config (registry w) (registry w') /\
  exists added,
    log w' = added ++ log w /\
    (count_gets added <= attempts (registry w) force)%nat /\
    (count_sleeps added <= count_gets added)%nat /\
    (force = false -> count_sleeps added = 0%nat).
Proof.
  intros w'. subst w'. unfold refresh, bind.
  destruct (fresh_and_unforced_reads U force w) as (b1 & pre1 & E1 & Hp1).
  rewrite E1.
  assert (Hz1 : count_gets pre1 = 0%nat /\ count_sleeps pre1 = 0%nat)
    by (destruct Hp1 as [-> | ->]; split; reflexivity).
  destruct b1.
  { split; [apply same_config_refl|]. exists pre1. simpl.
    destruct Hz1 as [-> ->]. repeat split; lia. }
  set (w1 := {| registry := registry w; log := pre1 ++ log w |}).
  destruct (fresh_and_unforced_reads U force w1) as (b2 & pre2 & E2 & Hp2).
  rewrite E2.
  assert (Hz2 : count_gets pre2 = 0%nat /\ count_sleeps pre2 = 0%nat)
    by (destruct Hp2 as [-> | ->]; split; reflexivity).
  destruct b2.
  { split; [apply same_config_refl|]. exists (pre2 ++ pre1). simpl.
    rewrite count_gets_app, count_sleeps_app, <- app_assoc.
    destruct Hz1 as [-> ->], Hz2 as [-> ->]. repeat split; lia. }
  set (w2 := {| registry := registry w1; log := pre2 ++ log w1 |}).
  unfold get_registry.
  destruct (refresh_loop_budget force (attempts (registry w2) force) None w2)
    as (Hc & added & Hl & Hg & Hs & Hn & _).
  change (registry w2) with (registry w) in *.
  split; [exact Hc|].
  exists (added ++ pre2 ++ pre1). rewrite Hl. simpl.
  rewrite !count_gets_app, !count_sleeps_app, <- !app_assoc.
  destruct Hz1 as [-> ->], Hz2 as [-> ->].
  split; [reflexivity|]. split; [lia|]. split; [lia|].
  intros Hf. rewrite (Hn Hf). reflexivity.
Qed.

Lemma failed_rounds_snoc (force : bool) (d : Z) (url : string) (n : nat) :
  failed_rounds force d url n ++ (if force then [EvSleep d] else []) ++ [EvGet url]
  = failed_rounds force d url (S n).
Proof.
  destruct force; induction n as [|n IH]; simpl in *;
    try reflexivity; now rewrite IH.
Qed.

(** The retry loop against an upstream that fails every listing. *)
Lemma refresh_loop_all_fail (force : bool) (n : nat) :
  (forall l, exists e, listing_at U l = Raise e) ->
  forall (last_exc : option exn) (w : world),
  exists warn,
    refresh_loop U force n last_exc w
    = (Ret tt,
       {| registry := registry w;
          log := warn ++ failed_rounds force (retry_delay_sec (registry w))
                           (models_url w) n ++ log w |}) /\
    (match n, last_exc with
     | O, None => warn = []
     | _, _ => exists e, warn = [EvPrint e]
     end).
Proof.
  intros Hfail. induction n as [|n IH]; intros last_exc w.
  - destruct last_exc as [e|]; simpl.
    + exists [EvPrint e]. split; [reflexivity | now exists e].
    + exists []. split; [destruct w; reflexivity | reflexivity].
  - cbn [refresh_loop]. unfold try_except. rewrite fetch_models_eq.
    destruct (Hfail (log (after_get w))) as [e ->].
    set (w1 := snd ((if force
                     then bind get_registry
                            (fun reg => sleep (retry_delay_sec reg))
                     else ret tt) (after_get w))).
    assert (Hw1 : (if force
                   then bind get_registry
                          (fun reg => sleep (retry_delay_sec reg))
                   else ret tt) (after_get w) = (Ret tt, w1)
                  /\ registry w1 = registry w
                  /\ log w1 = ((if force
                                then [EvSleep (retry_delay_sec (registry w))]
                                else []) ++ [EvGet (models_url w)]) ++ log w).
    { subst w1. destruct force; repeat split. }
    destruct Hw1 as (Hrun & Hr1 & Hl1).
    unfold bind at 1. rewrite Hrun.
    destruct (IH (Some e) w1) as (warn & Hloop & Hwarn).
    exists warn. split.
    + rewrite Hloop. f_equal. unfold models_url. rewrite Hr1, Hl1.
      fold (models_url w). f_equal. f_equal.
      rewrite <- failed_rounds_snoc, <- !app_assoc. reflexivity.
    + destruct n; exact Hwarn.
Qed.

End WithUpstream.


(** X1. While the cache is fresh (a positive TTL, and less than the TTL has
    passed on the clock since the last fetch) a call of [refresh] that is
    not forced only reads the clock: it makes no request and leaves the
    registry as it is; and [resolve_model] resolves on the cache as it
    stands. *)
Theorem fresh_cache_needs_no_request (U : upstream)
    (requested default_model : json) (w : world) :
  (0 < ttl_sec (registry w))%Z ->
  (clock U (log w) - _last_fetch (registry w) < ttl_sec (registry w))%Z ->
  let w' := {| registry := registry w; log := EvTime :: log w |} in
  refresh U false w = (Ret tt, w') /\
  resolve_model U requested default_model w
  = (Ret (resolve_in (_models (registry w)) requested default_model), w').
Proof.
  intros Httl Hnow w'.
  assert (Hr : refresh U false w = (Ret tt, w')).
  { unfold refresh, bind, fresh_and_unforced, _is_fresh, bind, get_registry,
      time_time, ret. simpl.
    destruct (Z.leb_spec (ttl_sec (registry w)) 0); [lia|].
    destruct (Z.ltb_spec (clock U (log w) - _last_fetch (registry w))
                (ttl_sec (registry w))); [reflexivity | lia]. }
  split; [exact Hr|].
  unfold resolve_model, bind. rewrite Hr. reflexivity.
Qed.

Lemma fresh_cache_needs_no_request_witness :
  refresh Samples.quiet false (Samples.world_with [JStr "A"] (-30))
  = (Ret tt,
     {| registry := Samples.registry_with [JStr "A"] (-30);
        log := [EvTime] |}).
Proof.
  apply (fresh_cache_needs_no_request Samples.quiet JNull JNull
           (Samples.world_with [JStr "A"] (-30))); simpl; lia.
Defined.

(** X2. A call of [refresh] makes at most [max(1, retries)] GETs of the
    listing when forced and at most one when not; it sleeps at most once per
    GET, and never when it is not forced; and it leaves the settings of the
    registry (address, TTL, retries, delay) as they are. *)
Theorem refresh_stays_within_budget (U : upstream) (force : bool) (w : world) :
  let w' := snd (refresh U force w) in
  same_config (registry w) (registry w') /\
  exists added,
    log w' = added ++ log w /\
    (Z.of_nat (count_gets added)
     <= if force then Z.max 1 (retries (registry w)) else 1)%Z /\
    (count_sleeps added <= count_gets added)%nat /\
    (force = false -> count_sleeps added = 0%nat).
Proof.
  intros w'. subst w'.
  destruct (refresh_budget U force w) as (Hc & added & Hl & Hg & Hs & Hn).
  split; [exact Hc|]. exists added. split; [exact Hl|].
  split; [|split; assumption].
  unfold attempts in Hg. destruct force; lia.
Qed.

(** X3. When every fetch of the listing fails, a forced [refresh] uses up
    its budget: it makes [max(1, retries)] GETs, sleeps [retry_delay_sec]
    after each of them, the last one included, prints one warning and
    leaves the registry as it was. *)
Theorem failed_forced_refresh_uses_budget (U : upstream) (w : world) :
  (forall l, exists e, listing_at U l = Raise e) ->
  exists e,
    refresh U true w
    = (Ret tt,
       {| registry := registry w;
          log := EvPrint e
                 :: failed_rounds true (retry_delay_sec (registry w))
                      (models_url w)
                      (Z.to_nat (Z.max 1 (retries (registry w))))
                 ++ log w |}).
Proof.
  intros Hfail. unfold refresh, bind. simpl.
  destruct (refresh_loop_all_fail U true (attempts (registry w) true) Hfail
              None w) as (warn & Hrun & Hwarn).
  unfold get_registry. rewrite Hrun.
  destruct (attempts_positive (registry w) true) as [m Hm].
  rewrite Hm in Hwarn. destruct Hwarn as [e ->].
  exists e. unfold attempts. reflexivity.
Qed.

Lemma failed_forced_refresh_uses_budget_witness :
  exists e,
    refresh Samples.quiet true
      {| registry :=
           {| base_url := "http://vllm:8000"; ttl_sec := 60; retries := 2;
              retry_delay_sec := 5; _models := [JStr "A"]; _last_fetch := 0 |};
         log := [] |}
    = (Ret tt,
       {| registry :=
            {| base_url := "http://vllm:8000"; ttl_sec := 60; retries := 2;
               retry_delay_sec := 5; _models := [JStr "A"];
               _last_fetch := 0 |};
          log := [EvPrint e;
                  EvSleep 5; EvGet "http://vllm:8000/v1/models";
                  EvSleep 5; EvGet "http://vllm:8000/v1/models"] |}).
Proof.
  destruct (failed_forced_refresh_uses_budget Samples.quiet
              {| registry :=
                   {| base_url := "http://vllm:8000"; ttl_sec := 60;
                      retries := 2; retry_delay_sec := 5;
                      _models := [JStr "A"]; _last_fetch := 0 |};
                 log := [] |}) as [e He].
  - intros l. exists TransportError. reflexivity.
  - exists e. exact He.
Defined.

(** X4. With a TTL of zero or less the cache is never fresh: a call of
    [refresh] that is not forced goes to the upstream at once, without
    reading the clock, and makes exactly one GET. *)
Theorem no_ttl_always_fetches (U : upstream) (w : world) :
  (ttl_sec (registry w) <= 0)%Z ->
  exists added,
    log (snd (refresh U false w)) = added ++ EvGet (models_url w) :: log w /\
    (added = [] \/ added = [EvTime] \/ exists e, added = [EvPrint e]).
Proof.
  intros Httl.
  assert (Hf : fresh_and_unforced U false w = (Ret false, w)).
  { unfold fresh_and_unforced, _is_fresh, bind, get_registry, ret. simpl.
    destruct (Z.leb_spec (ttl_sec (registry w)) 0); [reflexivity | lia]. }
  unfold refresh, bind. rewrite Hf, Hf. unfold get_registry.
  change (attempts (registry w) false) with 1%nat.
  cbn [refresh_loop]. unfold try_except. rewrite fetch_models_eq.
  destruct (listing_at U (log (after_get w))) as [ids|e].
  - destruct ids as [|i ids].
    + exists []. split; [reflexivity | now left].
    + exists [EvTime]. split; [reflexivity | right; now left].
  - exists [EvPrint e]. split; [reflexivity | right; right; now exists e].
Qed.

Lemma no_ttl_always_fetches_witness :
  exists added,
    log (snd (refresh (Samples.serving (Samples.listing ["m1"])) false
                {| registry :=
                     {| base_url := "http://vllm:8000"; ttl_sec := 0;
                        retries := 10; retry_delay_sec := 1;
                        _models := [JStr "m1"]; _last_fetch := 100 |};
                   log := [] |}))
    = added ++ [EvGet "http://vllm:8000/v1/models"].
Proof.
  destruct (no_ttl_always_fetches (Samples.serving (Samples.listing ["m1"]))
              {| registry :=
                   {| base_url := "http://vllm:8000"; ttl_sec := 0;
                      retries := 10; retry_delay_sec := 1;
                      _models := [JStr "m1"]; _last_fetch := 100 |};
                 log := [] |}) as (added & H & _).
  - simpl. lia.
  - exists added. exact H.
Defined.

Lemma resolve_model_config (U : upstream) (requested default_model : json)
    (w : world) :
  same_config (registry w)
    (registry (snd (resolve_model U requested default_model w))).
Proof.
  destruct (resolve_model_eq U requested default_model w) as (w' & Hr & ->).
  simpl. destruct (refresh_budget U false w) as [Hc _].
  now rewrite Hr in Hc.
Qed.

Lemma maybe_retry_config (U : upstream) (resp_status : Z)
    (resp_json requested default_model : json) (w : world) :
  same_config (registry w)
    (registry (snd (maybe_retry_on_model_404 U resp_status resp_json
                      requested default_model w))).
Proof.
  unfold maybe_retry_on_model_404.
  destruct (negb (resp_status =? 404)%Z); [apply same_config_refl|].
  unfold bind at 1, lift.
  destruct (_is_model_not_found_404 (py_or resp_json (JObj [])))
    as [found|e]; [|apply same_config_refl].
  destruct found; simpl; [|apply same_config_refl].
  unfold bind at 1.
  destruct (refresh_budget U true w) as [H1 _].
  destruct (refresh_spec U true w) as (w1 & Hr1 & _).
  rewrite Hr1 in *. simpl in H1. unfold bind at 1.
  pose proof (resolve_model_config U requested default_model w1) as H2.
  destruct (resolve_model_eq U requested default_model w1) as (w2 & _ & Hr2).
  rewrite Hr2 in *. simpl in *.
  eapply same_config_trans; eassumption.
Qed.

(** X5. The operations of the registry ([refresh], [resolve_model],
    [maybe_retry_on_model_404]) never change its settings (address, TTL,
    retries, delay) and never make a POST: all they ask of the upstream is
    the listing. *)
Theorem registry_keeps_settings_and_only_gets (U : upstream) :
  (forall force w,
     let w' := snd (refresh U force w) in
     same_config (registry w) (registry w') /\ no_post_since w w') /\
  (forall requested default_model w,
     let w' := snd (resolve_model U requested default_model w) in
     same_config (registry w) (registry w') /\ no_post_since w w') /\
  (forall resp_status resp_json requested default_model w,
     let w' := snd (maybe_retry_on_model_404 U resp_status resp_json
                      requested default_model w) in
     same_config (registry w) (registry w') /\ no_post_since w w').
Proof.
  split; [|split].
  - intros force w w'. split.
    + apply (refresh_budget U force w).
    + apply refresh_no_post.
  - intros requested default_model w w'. split.
    + apply resolve_model_config.
    + apply resolve_model_no_post.
  - intros resp_status resp_json requested default_model w w'. split.
    + apply maybe_retry_config.
    + apply maybe_retry_no_post.
Qed.

(** X6. With a cache that is not empty, what [resolve_model] returns for a
    requested and a default model that are strings (or missing) is always
    one of the cached ids: the gateway then never settles on a model the
    upstream has not listed. *)
Theorem resolved_model_is_a_cached_id (U : upstream)
    (requested default_model : option string) (w : world) :
  let out := resolve_model U (of_opt requested) (of_opt default_model) w in
  _models (registry (snd out)) <> [] ->
  exists v, fst out = Ret v /\ In v (_models (registry (snd out))).
Proof.
  intros out. subst out.
  destruct (resolve_model_eq U (of_opt requested) (of_opt default_model) w)
    as (w' & _ & ->).
  simpl. intros Hne. eexists. split; [reflexivity|].
  unfold resolve_in.
  destruct (first_known _ _) as [c|] eqn:Hfk.
  - apply first_known_some in Hfk. destruct Hfk as [Hin Hmem].
    apply candidates_truthy in Hin. destruct Hin as [_ [-> | ->]].
    + destruct requested as [s|]; simpl in *; [now apply py_in_str|].
      unfold py_in in Hmem. apply existsb_exists in Hmem.
      destruct Hmem as (y & Hy & E). destruct y; simpl in E; try discriminate.
      assumption.
    + destruct default_model as [s|]; simpl in *; [now apply py_in_str|].
      unfold py_in in Hmem. apply existsb_exists in Hmem.
      destruct Hmem as (y & Hy & E). destruct y; simpl in E; try discriminate.
      assumption.
  - destruct (_models (registry w')) as [|m0 rest]; [contradiction|].
    now left.
Qed.

Lemma resolved_model_is_a_cached_id_witness :
  exists v,
    fst (resolve_model Samples.quiet (JStr "gone") (JStr "B")
           (Samples.world_with [JStr "A"; JStr "B"] 0)) = Ret v /\
    In v [JStr "A"; JStr "B"].
Proof.
  apply (resolved_model_is_a_cached_id Samples.quiet (Some "gone") (Some "B")
           (Samples.world_with [JStr "A"; JStr "B"] 0)).
  discriminate.
Defined.

(** X7. The test for "model not found" holds whatever the case of the
    letters: for a 404 whose error is an object with a string for message,
    a message that carries "does not exist" or "not found" in any mix of
    upper and lower case brings about the forced refresh and a model
    resolved anew. *)
Theorem not_found_in_any_case (U : upstream) (fields err : list (string * json))
    (msg pre mid post : string) (requested default_model : json) (w : world) :
  lookup "error" fields = Some (JObj err) ->
  lookup "message" err = Some (JStr msg) ->
  msg = (pre ++ mid ++ post)%string ->
  (lower mid = "not found"%string \/ lower mid = "does not exist"%string) ->
  exists w1 w2,
    refresh U true w = (Ret tt, w1) /\
    refresh U false w1 = (Ret tt, w2) /\
    let new_model :=
      resolve_in (_models (registry w2)) requested default_model in
    maybe_retry_on_model_404 U 404 (JObj fields) requested default_model w
    = (Ret (if truthy new_model then new_model else JNull), w2).
Proof.
  intros He Hm Hmsg Hmid.
  assert (Htext : message_text err = Some msg).
  { unfold message_text, dict_get. now rewrite Hm. }
  destruct (maybe_retry_on_error_object U fields err msg requested
              default_model w He Htext) as [Hyes _].
  apply Hyes. right.
  destruct Hmid as [H | H]; [right | left]; exists pre, mid, post; auto.
Qed.

Lemma not_found_in_any_case_witness :
  exists w1 w2,
    refresh (Samples.serving (Samples.listing ["m1"])) true
      (Samples.world_with [] 0) = (Ret tt, w1) /\
    refresh (Samples.serving (Samples.listing ["m1"])) false w1 = (Ret tt, w2) /\
    maybe_retry_on_model_404 (Samples.serving (Samples.listing ["m1"])) 404
      (JObj [("error", JObj [("message", JStr "Model NOT Found: x")])])
      (JStr "x") JNull (Samples.world_with [] 0)
    = (Ret (if truthy (resolve_in (_models (registry w2)) (JStr "x") JNull)
            then resolve_in (_models (registry w2)) (JStr "x") JNull
            else JNull), w2).
Proof.
  apply (not_found_in_any_case (Samples.serving (Samples.listing ["m1"]))
           [("error", JObj [("message", JStr "Model NOT Found: x")])]
           [("message", JStr "Model NOT Found: x")]
           "Model NOT Found: x" "Model " "NOT Found" ": x"
           (JStr "x") JNull (Samples.world_with [] 0));
    try reflexivity.
  left. reflexivity.
Defined.

Lemma ids_of_chars (s : string) : ids_of (chars s) = [].
Proof. induction s as [|c s IH]; simpl; [reflexivity | assumption]. Qed.

Lemma ids_of_keys (d : list (string * json)) :
  ids_of (map (fun kv => JStr (fst kv)) d) = [].
Proof. induction d as [|[k v] d IH]; simpl; [reflexivity | assumption]. Qed.

(** X8. What [_fetch_models] makes of an answer that is not a listing.  A
    status outside 2xx raises, whatever the body; a body that is not JSON
    raises; so does a body that is JSON but no object, and a ["data"] that is
    null, a number or a boolean.  A ["data"] that is an object or a string is
    gone through without finding a model: the result is the empty list. *)
Theorem fetch_models_on_odd_answers (r : response) :
  (is_success (status_code r) = false ->
   parse_models r = Raise (HTTPStatusError (status_code r))) /\
  (is_success (status_code r) = true ->
   (body_json r = None -> parse_models r = Raise JSONDecodeError) /\
   (forall v, body_json r = Some v ->
              (forall fields, v <> JObj fields) ->
              parse_models r = Raise AttributeError) /\
   (forall fields d, body_json r = Some (JObj fields) ->
                     lookup "data" fields = Some d ->
                     match d with
                     | JNull | JBool _ | JNum _ =>
                         parse_models r = Raise TypeError
                     | JStr _ | JObj _ => parse_models r = Ret []
                     | JArr items => parse_models r = Ret (ids_of items)
                     end)).
Proof.
  unfold parse_models, raise_for_status, check_status, response_json.
  split.
  - intros ->. reflexivity.
  - intros ->. split; [|split].
    + intros ->. reflexivity.
    + intros v -> Hv. destruct v; try reflexivity. now destruct (Hv fields).
    + intros fields d -> Hd. simpl. unfold dict_get_default. rewrite Hd.
      destruct d; simpl; try reflexivity.
      * now rewrite ids_of_chars.
      * now rewrite ids_of_keys.
Qed.

Lemma fetch_models_on_odd_answers_witness :
  parse_models {| status_code := 503; text := "";
                  body_json := Some (Samples.listing_body ["m1"]) |}
  = Raise (HTTPStatusError 503) /\
  parse_models {| status_code := 200; text := "<html>"; body_json := None |}
  = Raise JSONDecodeError /\
  parse_models {| status_code := 200; text := "";
                  body_json := Some (JArr [JObj [("id", JStr "m1")]]) |}
  = Raise AttributeError /\
  parse_models {| status_code := 200; text := "";
                  body_json := Some (JObj [("data", JNull)]) |}
  = Raise TypeError /\
  parse_models {| status_code := 200; text := "";
                  body_json := Some (JObj [("data", JObj [("id", JStr "m1")])]) |}
  = Ret [].
Proof.
  split; [|split; [|split; [|split]]].
  - apply (fetch_models_on_odd_answers
             {| status_code := 503; text := "";
                body_json := Some (Samples.listing_body ["m1"]) |}).
    reflexivity.
  - apply (fetch_models_on_odd_answers
             {| status_code := 200; text := "<html>"; body_json := None |});
      reflexivity.
  - destruct (fetch_models_on_odd_answers
                {| status_code := 200; text := "";
                   body_json := Some (JArr [JObj [("id", JStr "m1")]]) |})
      as [_ H].
    destruct (H eq_refl) as (_ & H2 & _).
    apply (H2 (JArr [JObj [("id", JStr "m1")]])); [reflexivity | discriminate].
  - destruct (fetch_models_on_odd_answers
                {| status_code := 200; text := "";
                   body_json := Some (JObj [("data", JNull)]) |}) as [_ H].
    destruct (H eq_refl) as (_ & _ & H3).
    apply (H3 [("data", JNull)] JNull); reflexivity.
  - destruct (fetch_models_on_odd_answers
                {| status_code := 200; text := "";
                   body_json :=
                     Some (JObj [("data", JObj [("id", JStr "m1")])]) |})
      as [_ H].
    destruct (H eq_refl) as (_ & _ & H3).
    apply (H3 [("data", JObj [("id", JStr "m1")])] (JObj [("id", JStr "m1")]));
      reflexivity.
Defined.
End RegistryMore.

(** ** The streaming relay, beyond the specification's claims *)

Module BackendMore.
Import Py Eff Backend Spec BackendFacts.
Local Open Scope list_scope.

Lemma header_get_set_same (k v : string) (h : list (string * string)) :
  header_get k (header_set k v h) = Some v.
Proof.
  induction h as [|[k' v'] h IH]; simpl.
  - now rewrite String.eqb_refl.
  - destruct (String.eqb_spec k k') as [->|N]; simpl.
    + now rewrite String.eqb_refl.
    + destruct (String.eqb_spec k k'); [contradiction | assumption].
Qed.

Lemma header_get_set_other (k k' v : string) (h : list (string * string)) :
  k' <> k -> header_get k' (header_set k v h) = header_get k' h.
Proof.
  intros N. induction h as [|[k0 v0] h IH]; simpl.
  - destruct (String.eqb_spec k' k); [contradiction | reflexivity].
  - destruct (String.eqb_spec k k0) as [->|N0]; simpl.
    + destruct (String.eqb_spec k' k0); [contradiction | reflexivity].
    + destruct (String.eqb_spec k' k0); [reflexivity | assumption].
Qed.

Lemma header_get_update (k : string) (extra h : list (string * string)) :
  header_get k (headers_update h extra)
  = match last_given k extra with
    | Some v => Some v
    | None => header_get k h
    end.
Proof.
  unfold headers_update. revert h.
  induction extra as [|[k' v'] extra IH]; intros h; simpl; [reflexivity|].
  rewrite IH. destruct (last_given k extra); [reflexivity|].
  destruct (String.eqb_spec k k') as [->|N].
  - apply header_get_set_same.
  - now apply header_get_set_other.
Qed.

(** X9. The request the relay opens: a POST to the base address followed by
    the path, carrying the payload as it is.  Every header the caller gives
    is sent with the caller's value, [Content-Type] included when the caller
    sets it; otherwise [Content-Type] is [application/json]. *)
Theorem relay_request_headers (base_url path : string) (payload : json)
    (headers : list (string * string)) (k : string) :
  let req := build_request base_url path payload headers in
  sr_method req = "POST"%string /\
  sr_url req = (base_url ++ path)%string /\
  sr_json req = payload /\
  header_get k (sr_headers req)
  = match last_given k headers with
    | Some v => Some v
    | None => if String.eqb k "Content-Type"
              then Some "application/json"%string else None
    end.
Proof.
  unfold build_request. simpl. repeat split.
  destruct headers as [|kv headers].
  - simpl. reflexivity.
  - cbv zeta. now rewrite header_get_update.
Qed.

(** X11. Dropping the empty chunks changes nothing of the stream of bytes:
    the bytes of the chunks yielded, put end to end, are the bytes of the
    chunks received, put end to end.  And what the relay yields it would
    yield again as it is. *)
Theorem relay_keeps_the_bytes (chunks : list chunk) :
  List.concat (relay chunks) = List.concat chunks /\
  relay (relay chunks) = relay chunks /\
  (List.length (relay chunks) <= List.length chunks)%nat.
Proof.
  induction chunks as [|c chunks (IH1 & IH2 & IH3)]; simpl.
  - repeat split. lia.
  - destruct c as [|b c]; simpl.
    + repeat split; auto.
    + rewrite IH1, IH2. repeat split. lia.
Qed.

End BackendMore.

(** ** Construction and the router, beyond the specification's claims *)

Module RouterMore.
Import Py Eff Registry Backend Router Setup Spec.
Import PyFacts RegistryFacts RouterFacts RegistryMore.
Local Open Scope list_scope.

Lemma append_empty_r (s : string) : (s ++ "")%string = s.
Proof. induction s as [|c s IH]; simpl; [reflexivity | now rewrite IH]. Qed.

Lemma append_assoc (a b c : string) :
  ((a ++ b) ++ c)%string = (a ++ (b ++ c))%string.
Proof. induction a as [|x a IH]; simpl; [reflexivity | now rewrite IH]. Qed.

Lemma rstrip_slash_app_slash (s : string) :
  rstrip_slash (s ++ "/") = rstrip_slash s.
Proof.
  induction s as [|c s IH]; simpl; [reflexivity|].
  rewrite IH. reflexivity.
Qed.

Lemma rstrip_slash_app_slashes (s : string) (n : nat) :
  rstrip_slash (s ++ slashes n) = rstrip_slash s.
Proof.
  revert s. induction n as [|n IH]; intros s; simpl.
  - now rewrite append_empty_r.
  - change (String "/" (slashes n)) with ("/" ++ slashes n)%string.
    rewrite <- append_assoc, IH. apply rstrip_slash_app_slash.
Qed.

Lemma rstrip_slash_split (s : string) :
  exists n, s = (rstrip_slash s ++ slashes n)%string.
Proof.
  induction s as [|c s [n IH]]; simpl.
  - now exists 0%nat.
  - destruct (rstrip_slash s) as [|d t] eqn:E; simpl in IH.
    + destruct (Ascii.eqb_spec c "/") as [->|N].
      * exists (S n). simpl. now f_equal.
      * exists n. simpl. now f_equal.
    + exists n. simpl. now f_equal.
Qed.

Lemma rstrip_slash_no_slash_end (s t : string) :
  rstrip_slash s <> (t ++ "/")%string.
Proof.
  revert t. induction s as [|c s IH]; intros t; simpl.
  - destruct t; discriminate.
  - destruct (rstrip_slash s) as [|d u] eqn:E.
    + destruct (Ascii.eqb_spec c "/") as [->|N].
      * destruct t; discriminate.
      * destruct t as [|x t]; simpl.
        -- intros [= ->]. contradiction.
        -- intros [= _ H]. destruct t; discriminate.
    + destruct t as [|x t]; simpl; [discriminate|].
      intros [= _ H]. now apply (IH t).
Qed.

(** X12. The address the registry and the relay keep never ends with a
    slash, and slashes at the end of the address configured do not matter:
    the listing is asked at the address stripped of them followed by
    [/v1/models], and a new registry starts with an empty cache. *)
Theorem base_url_has_no_trailing_slash (environ : list (string * string))
    (base_url : string) (n : nat) (ttl retries delay : Z) :
  base_url <> ""%string ->
  let reg := init_registry environ (Some (base_url ++ slashes n)%string)
               ttl retries delay in
  Eff.base_url reg = rstrip_slash base_url /\
  (forall t, Eff.base_url reg <> (t ++ "/")%string) /\
  (exists k, (base_url ++ slashes n)%string
             = (Eff.base_url reg ++ slashes k)%string) /\
  models_url {| registry := reg; log := [] |}
  = (rstrip_slash base_url ++ "/v1/models")%string /\
  _models reg = [].
Proof.
  intros Hne reg. subst reg. unfold init_registry, init_base_url, models_url.
  cbn [Eff.base_url registry _models].
  assert (He : String.eqb (base_url ++ slashes n) "" = false).
  { destruct base_url; [contradiction | reflexivity]. }
  rewrite He.
  split; [|split; [|split; [|split]]].
  - apply rstrip_slash_app_slashes.
  - apply rstrip_slash_no_slash_end.
  - apply rstrip_slash_split.
  - now rewrite rstrip_slash_app_slashes.
  - reflexivity.
Qed.

Lemma base_url_has_no_trailing_slash_witness :
  Eff.base_url (init_registry [] (Some "http://vllm:8000//"%string) 60 10 1)
  = "http://vllm:8000"%string.
Proof.
  destruct (base_url_has_no_trailing_slash [] "http://vllm:8000" 2 60 10 1)
    as [H _]; [discriminate|].
  exact H.
Defined.

(** X13. Start-up cannot fail: [warmup] never raises, so what [on_startup]
    would do on an exception is never done, whatever it is, and start-up
    is one forced refresh, within its budget of GETs. *)
Theorem startup_never_fails (U : upstream) (warn : exn -> M unit) (w : world) :
  on_startup U warn w = refresh U true w /\
  exists w', on_startup U warn w = (Ret tt, w') /\
             same_config (registry w) (registry w') /\
             (Z.of_nat (count_gets (log w')) <=
              Z.of_nat (count_gets (log w)) + Z.max 1 (retries (registry w)))%Z.
Proof.
  destruct (refresh_spec U true w) as (w' & Hr & _).
  assert (Hs : on_startup U warn w = refresh U true w).
  { unfold on_startup, try_except, warmup. rewrite Hr. reflexivity. }
  split; [exact Hs|]. exists w'. rewrite Hs. split; [exact Hr|].
  destruct (refresh_budget U true w) as (Hc & added & Hl & Hg & _).
  rewrite Hr in *. simpl in *. split; [exact Hc|].
  rewrite Hl, count_gets_app. unfold attempts in Hg. lia.
Qed.

(** *** The policy step *)

Lemma py_eq_str_r (v : json) (s : string) :
  py_eq v (JStr s) = true <-> v = JStr s.
Proof.
  destruct v; simpl; split; try congruence.
  - intros H. apply String.eqb_eq in H. now subst.
  - intros [= ->]. apply String.eqb_refl.
Qed.

Lemma dict_get_set_same (k : string) (v : json) (d : list (string * json)) :
  dict_get k (dict_set k v d) = v.
Proof. unfold dict_get. now rewrite lookup_set_same. Qed.

Lemma dict_set_twice (k : string) (v v' : json) (d : list (string * json)) :
  dict_set k v (dict_set k v' d) = dict_set k v d.
Proof.
  induction d as [|[k0 v0] d IH]; simpl.
  - now rewrite String.eqb_refl.
  - destruct (String.eqb_spec k k0) as [->|N]; simpl.
    + now rewrite String.eqb_refl.
    + destruct (String.eqb_spec k k0); [contradiction | now rewrite IH].
Qed.

(** The policy on messages that are a list led by an object, or empty. *)
Lemma inject_policy_on_list (environ : list (string * string)) (note : string)
    (payload : list (string * json)) (l : list json) :
  getenv environ "FORCE_JA" "1" = "1"%string ->
  py_or (dict_get "messages" payload) (JArr []) = JArr l ->
  (l = [] \/ exists d rest, l = JObj d :: rest) ->
  inject_policy environ note payload
  = Ret (dict_set "messages"
           (JArr (match l with
                  | JObj d :: _ =>
                      if py_eq (dict_get "role" d) (JStr "system") then l
                      else system_message note :: l
                  | _ => system_message note :: l
                  end)) payload).
Proof.
  intros Hon Hm Hl. unfold inject_policy. rewrite Hon, Hm. simpl.
  destruct Hl as [-> | (d & rest & ->)]; simpl; [reflexivity|].
  destruct (py_eq (dict_get "role" d) (JStr "system")); reflexivity.
Qed.

Lemma messages_of_py_or (payload : list (string * json)) (l : list json) :
  messages_of payload = Some l ->
  py_or (dict_get "messages" payload) (JArr []) = JArr l.
Proof.
  unfold messages_of, py_or.
  destruct (dict_get "messages" payload) as [| b | n | s | items | f]; simpl.
  - now intros [= <-].
  - destruct b; [discriminate | now intros [= <-]].
  - destruct (n =? 0)%Z; simpl; [now intros [= <-] | discriminate].
  - destruct (String.eqb s ""); simpl; [now intros [= <-] | discriminate].
  - intros [= ->]. now destruct l.
  - destruct f; [now intros [= <-] | discriminate].
Qed.

(** X14. With the policy on and messages that are a list of objects (or
    missing), the policy step succeeds and leaves a payload whose first
    message has the role ["system"]: a payload already led by a system
    message keeps its messages as they are; otherwise the fixed system
    message is put in front of them and nothing is dropped.  No other
    field of the payload changes, and applying the step a second time
    changes nothing. *)
Theorem policy_puts_system_message_first (environ : list (string * string))
    (note : string) (payload : list (string * json)) (l : list json) :
  getenv environ "FORCE_JA" "1" = "1"%string ->
  messages_of payload = Some l ->
  (l = [] \/ exists d rest, l = JObj d :: rest) ->
  exists l',
    inject_policy environ note payload
    = Ret (dict_set "messages" (JArr l') payload) /\
    led_by_system l' /\
    (led_by_system l -> l' = l) /\
    (~ led_by_system l -> l' = system_message note :: l) /\
    (forall k, k <> "messages"%string ->
               lookup k (dict_set "messages" (JArr l') payload)
               = lookup k payload) /\
    inject_policy environ note (dict_set "messages" (JArr l') payload)
    = Ret (dict_set "messages" (JArr l') payload).
Proof.
  intros Hon Hm Hl. apply messages_of_py_or in Hm.
  rewrite (inject_policy_on_list environ note payload l Hon Hm Hl).
  eexists. split; [reflexivity|].
  set (l' := match l with
             | JObj d :: _ =>
                 if py_eq (dict_get "role" d) (JStr "system") then l
                 else system_message note :: l
             | _ => system_message note :: l
             end).
  assert (Hsys : led_by_system (system_message note :: l)).
  { eexists _, l. split; reflexivity. }
  assert (Hcases : (led_by_system l /\ l' = l) \/
                   (~ led_by_system l /\ l' = system_message note :: l)).
  { subst l'. destruct Hl as [-> | (d & rest & ->)].
    - right. split; [|reflexivity]. intros (d & rest & [=] & _).
    - destruct (py_eq (dict_get "role" d) (JStr "system")) eqn:E.
      + left. split; [|reflexivity]. apply py_eq_str_r in E.
        now exists d, rest.
      + right. split; [|reflexivity].
        intros (d' & rest' & [= <- <-] & Hrole).
        rewrite Hrole in E. simpl in E. discriminate. }
  assert (Hled : led_by_system l').
  { destruct Hcases as [[H ->] | [_ ->]]; assumption. }
  split; [exact Hled|]. split; [|split; [|split]].
  - intros H. destruct Hcases as [[_ E] | [N _]]; [exact E | contradiction].
  - intros N. destruct Hcases as [[H _] | [_ E]]; [contradiction | exact E].
  - intros k Hk. now apply lookup_set_other.
  - destruct Hled as (d & rest & El & Hrole).
    rewrite (inject_policy_on_list environ note _ l' Hon).
    + rewrite El. rewrite Hrole. simpl. now rewrite dict_set_twice.
    + rewrite dict_get_set_same. unfold py_or. rewrite El. reflexivity.
    + right. now exists d, rest.
Qed.

Lemma policy_puts_system_message_first_witness :
  inject_policy [] "ja" [("messages", JArr [JObj [("role", JStr "user")]])]
  = Ret [("messages",
          JArr [system_message "ja"; JObj [("role", JStr "user")]])].
Proof.
  destruct (policy_puts_system_message_first [] "ja"
              [("messages", JArr [JObj [("role", JStr "user")]])]
              [JObj [("role", JStr "user")]] eq_refl eq_refl)
    as (l' & Hrun & _ & _ & Hnot & _).
  - right. now eexists _, _.
  - rewrite Hrun, Hnot; [reflexivity|].
    intros (d & rest & [= <- _] & Hrole). discriminate.
Defined.

(** X15. With the policy off the payload passes as it is, whatever its
    messages are.  With the policy on, messages that are not a list of
    objects make the step raise: a number or [true] (no length), a string
    that is not empty (its first character has no [get]), an object that is
    not empty (no key [0]), a list whose first element is not an object. *)
Theorem policy_on_odd_messages (environ : list (string * string))
    (note : string) (payload : list (string * json)) :
  (getenv environ "FORCE_JA" "1" <> "1"%string ->
   inject_policy environ note payload = Ret payload) /\
  (getenv environ "FORCE_JA" "1" = "1"%string ->
   match dict_get "messages" payload with
   | JNum n =>
       n <> 0%Z -> inject_policy environ note payload = Raise TypeError
   | JBool b =>
       b = true -> inject_policy environ note payload = Raise TypeError
   | JStr s =>
       s <> ""%string ->
       inject_policy environ note payload = Raise AttributeError
   | JObj f =>
       f <> [] -> inject_policy environ note payload = Raise KeyError
   | JArr (m :: _) =>
       (forall d, m <> JObj d) ->
       inject_policy environ note payload = Raise AttributeError
   | _ => True
   end).
Proof.
  unfold inject_policy. split.
  - intros Hoff. destruct (String.eqb_spec (getenv environ "FORCE_JA" "1") "1");
      [contradiction | reflexivity].
  - intros ->. simpl. unfold py_or.
    destruct (dict_get "messages" payload) as [| b | n | s | items | f];
      simpl; auto.
    + intros ->. reflexivity.
    + intros Hn. destruct (Z.eqb_spec n 0); [contradiction | reflexivity].
    + intros Hs. destruct (String.eqb_spec s ""); [contradiction|]. simpl.
      destruct s as [|c s]; [contradiction|]. reflexivity.
    + destruct items as [|m rest]; [exact I|]. intros Hm. simpl.
      destruct m; try reflexivity. now destruct (Hm fields).
    + intros Hf. destruct f as [|kv f]; [contradiction|]. reflexivity.
Qed.

Lemma policy_on_odd_messages_witness :
  inject_policy [("FORCE_JA", "0")] "ja" [("messages", JNum 7)]
  = Ret [("messages", JNum 7)] /\
  inject_policy [] "ja" [("messages", JStr "hello")] = Raise AttributeError.
Proof.
  split.
  - apply (policy_on_odd_messages [("FORCE_JA", "0")] "ja"
             [("messages", JNum 7)]).
    discriminate.
  - destruct (policy_on_odd_messages [] "ja" [("messages", JStr "hello")])
      as [_ H].
    apply (H eq_refl). discriminate.
Defined.

(** *** The handler as a whole *)

Lemma inject_policy_frame (environ : list (string * string)) (note : string)
    (payload p2 : list (string * json)) :
  inject_policy environ note payload = Ret p2 ->
  forall k, k <> "messages"%string -> lookup k p2 = lookup k payload.
Proof.
  intros H k Hk. unfold inject_policy in H.
  destruct (String.eqb (getenv environ "FORCE_JA" "1") "1");
    [|now injection H as <-].
  cbv zeta in H.
  destruct (py_len _) as [n|]; [|discriminate].
  destruct (0 <? n)%nat.
  - destruct (py_first _) as [m0|]; [|discriminate].
    destruct (py_get m0 "role") as [role|]; [|discriminate].
    destruct (py_eq role (JStr "system")).
    + injection H as <-. now apply lookup_set_other.
    + destruct (py_cons _ _); [|discriminate].
      injection H as <-. now apply lookup_set_other.
  - destruct (py_cons _ _); [|discriminate].
    injection H as <-. now apply lookup_set_other.
Qed.

(** The stream flag the handler reads is the one of the request's body. *)
Lemma stream_flag_kept (environ : list (string * string)) (note : string)
    (resolved : json) (default_model : string)
    (payload p2 : list (string * json)) :
  inject_policy environ note (apply_resolved resolved default_model payload)
  = Ret p2 ->
  dict_get_default "stream" (JBool false) p2
  = dict_get_default "stream" (JBool false) payload.
Proof.
  intros H. unfold dict_get_default.
  rewrite (inject_policy_frame _ _ _ _ H) by discriminate.
  destruct (apply_resolved_spec resolved default_model payload)
    as (_ & _ & Hframe).
  rewrite Hframe by discriminate. reflexivity.
Qed.

(** The handler, from the world the Resolve step leaves. *)
Lemma chat_completions_eq (U : upstream)
    (stream : stream_request -> stream_reply)
    (environ : list (string * string)) (note : string)
    (payload : list (string * json)) (w : world) :
  let default_model :=
    getenv environ "DEFAULT_MODEL" "Qwen/Qwen2.5-7B-Instruct" in
  let requested_model := dict_get "model" payload in
  exists resolved w1,
    resolve_model U requested_model (JStr default_model) w = (Ret resolved, w1)
    /\ no_post_since w w1
    /\ chat_completions U stream environ note (JObj payload) w
       = match inject_policy environ note
                 (apply_resolved resolved default_model payload) with
         | Raise e => (Raise e, w1)
         | Ret p2 =>
             if truthy (dict_get_default "stream" (JBool false) p2) then
               let out :=
                 stream_openai_sse stream (init_base_url environ None) path
                   (JObj p2) [] in
               (Ret (StreamingResponse (fst out) (snd out)), w1)
             else buffered U environ p2 requested_model default_model w1
         end.
Proof.
  intros default_model requested_model.
  destruct (resolve_phase_eq U environ payload w) as (resolved & w1 & Hr & Hp).
  exists resolved, w1. split; [exact Hr|]. split.
  - pose proof (resolve_model_no_post U requested_model (JStr default_model) w)
      as H. fold default_model requested_model in Hr. now rewrite Hr in H.
  - unfold chat_completions, bind. rewrite Hp. unfold lift.
    fold default_model.
    destruct (inject_policy environ note
                (apply_resolved resolved default_model payload)) as [p2|e];
      [|reflexivity].
    destruct (truthy (dict_get_default "stream" (JBool false) p2));
      [|reflexivity].
    unfold init_base_url.
    destruct (stream_openai_sse stream _ path (JObj p2) []) as [chunks fin].
    reflexivity.
Qed.

(** X16. A request the handler cannot work on is turned down before
    anything is posted.  A body that is not an object raises
    [AttributeError] at once, with no call to the upstream at all.  A body
    whose messages make the policy step raise gives that exception once the
    model is resolved: the listing may have been fetched, but no POST was
    made. *)
Theorem bad_request_posts_nothing (U : upstream)
    (stream : stream_request -> stream_reply)
    (environ : list (string * string)) (note : string) (body : json)
    (w : world) :
  let default_model :=
    getenv environ "DEFAULT_MODEL" "Qwen/Qwen2.5-7B-Instruct" in
  ((forall payload, body <> JObj payload) ->
   chat_completions U stream environ note body w = (Raise AttributeError, w))
  /\
  (forall payload resolved w1 e,
     body = JObj payload ->
     resolve_model U (dict_get "model" payload) (JStr default_model) w
     = (Ret resolved, w1) ->
     inject_policy environ note (apply_resolved resolved default_model payload)
     = Raise e ->
     chat_completions U stream environ note body w = (Raise e, w1) /\
     count_posts (log w1) = count_posts (log w)).
Proof.
  intros default_model. split.
  - intros Hbody. unfold chat_completions, resolve_phase, bind, lift.
    destruct body; try reflexivity. now destruct (Hbody fields).
  - intros payload resolved w1 e -> Hr Hpol.
    destruct (chat_completions_eq U stream environ note payload w)
      as (resolved' & w1' & Hr' & Hquiet & Heq).
    fold default_model in Hr', Heq. rewrite Hr in Hr'.
    injection Hr' as <- <-. rewrite Hpol in Heq.
    split; [exact Heq | now apply no_post_count].
Qed.

Lemma bad_request_posts_nothing_witness :
  chat_completions Samples.quiet (fun _ => NoConnection) [] "ja"
    (JArr []) (Samples.world_with [] 0)
  = (Raise AttributeError, Samples.world_with [] 0) /\
  fst (chat_completions Samples.quiet (fun _ => NoConnection) [] "ja"
         (JObj [("messages", JNum 7)]) (Samples.world_with [] 0))
  = Raise TypeError.
Proof.
  destruct (bad_request_posts_nothing Samples.quiet (fun _ => NoConnection)
              [] "ja" (JArr []) (Samples.world_with [] 0)) as [H _].
  split; [apply H; discriminate|].
  destruct (bad_request_posts_nothing Samples.quiet (fun _ => NoConnection)
              [] "ja" (JObj [("messages", JNum 7)])
              (Samples.world_with [] 0)) as [_ H2].
  edestruct H2 as [Heq _]; [reflexivity | reflexivity | |].
  2:{ rewrite Heq. reflexivity. }
  reflexivity.
Defined.

(** X17. Whether a request is streamed is decided by the ["stream"] field
    of its body alone.  When that field counts as true and the policy step
    succeeds, the handler returns a streaming response and never raises; the
    relay is opened on the address of the backend followed by the chat path,
    with the payload the two steps have left; the shared client makes no
    POST, and the answer of the relay is not looked at: a status that is
    not 2xx, 404 included, ends the stream with that error, with no chunk,
    no refresh of the registry and no second attempt. *)
Theorem streamed_request_is_relayed (U : upstream)
    (stream : stream_request -> stream_reply)
    (environ : list (string * string)) (note : string)
    (payload p2 : list (string * json)) (resolved : json) (w w1 : world) :
  let default_model :=
    getenv environ "DEFAULT_MODEL" "Qwen/Qwen2.5-7B-Instruct" in
  let req :=
    {| sr_method := "POST";
       sr_url := (init_base_url environ None ++ "/v1/chat/completions")%string;
       sr_json := JObj p2;
       sr_headers := [("Content-Type", "application/json")] |} in
  truthy (dict_get_default "stream" (JBool false) payload) = true ->
  resolve_model U (dict_get "model" payload) (JStr default_model) w
  = (Ret resolved, w1) ->
  inject_policy environ note (apply_resolved resolved default_model payload)
  = Ret p2 ->
  (exists chunks fin,
     chat_completions U stream environ note (JObj payload) w
     = (Ret (StreamingResponse chunks fin), w1) /\
     (chunks, fin) = stream_openai_sse stream (init_base_url environ None)
                       path (JObj p2) [] /\
     (forall status cs lost,
        stream req = Connected status cs lost ->
        is_success status = false ->
        chunks = [] /\ fin = Failed (HTTPStatusError status)) /\
     (forall status cs,
        stream req = Connected status cs false ->
        is_success status = true ->
        chunks = relay cs /\ fin = Exhausted)) /\
  count_posts (log w1) = count_posts (log w).
Proof.
  intros default_model req Hflag Hr Hpol.
  destruct (chat_completions_eq U stream environ note payload w)
    as (resolved' & w1' & Hr' & Hquiet & Heq).
  fold default_model in Hr', Heq. rewrite Hr in Hr'.
  injection Hr' as <- <-. rewrite Hpol in Heq.
  rewrite (stream_flag_kept _ _ _ _ _ _ Hpol), Hflag in Heq.
  split; [|now apply no_post_count].
  eexists _, _. split; [exact Heq|].
  split; [symmetry; apply surjective_pairing|].
  unfold stream_openai_sse.
  change (build_request (init_base_url environ None) path (JObj p2) [])
    with req.
  split.
  - intros status cs lost -> Hbad. unfold check_status. rewrite Hbad.
    split; reflexivity.
  - intros status cs -> Hok. unfold check_status. rewrite Hok.
    split; reflexivity.
Qed.

Lemma streamed_request_is_relayed_witness :
  chat_completions Samples.quiet (fun _ => Connected 404 [] false)
    [("FORCE_JA", "0")] "" (JObj [("stream", JBool true)])
    (Samples.world_with [JStr "m1"] 0)
  = (Ret (StreamingResponse [] (Failed (HTTPStatusError 404))),
     {| registry := Samples.registry_with [JStr "m1"] 0; log := [EvTime] |}).
Proof.
  pose proof (fun p2 resolved =>
                streamed_request_is_relayed Samples.quiet
                  (fun _ => Connected 404 [] false) [("FORCE_JA", "0")] ""
                  [("stream", JBool true)] p2 resolved
                  (Samples.world_with [JStr "m1"] 0)) as H.
  edestruct H
    as [(chunks & fin & Heq & _ & Hbad & _) _];
    [reflexivity | reflexivity | reflexivity |].
  destruct (Hbad 404%Z [] false eq_refl eq_refl) as [-> ->].
  exact Heq.
Defined.

Lemma not_found_on_plain_answer (r : response) :
  status_code r = 404%Z -> plain_answer r ->
  _is_model_not_found_404 (py_or (resp_json_of r) (JObj [])) = Ret false.
Proof.
  intros H404 [Hn | [Hnone | (d & Hd & Herr)]]; [contradiction | |];
    unfold resp_json_of.
  - rewrite Hnone. reflexivity.
  - rewrite Hd. unfold py_or.
    destruct (truthy (JObj d)); unfold _is_model_not_found_404, py_get,
      dict_get; [rewrite Herr|]; reflexivity.
Qed.

(** X18. A request that is not streamed, answered with something that does
    not speak of a missing model (any status but 404, or a 404 whose body is
    not JSON or has no ["error"] field), is posted exactly once, to the
    chat address, with the payload the Resolve and policy steps have left;
    nothing is refreshed or tried again, and the answer is handed back with
    its status: its JSON body as it is, or its text under ["raw"] when the
    body is not JSON.  Apart from ["model"] and ["messages"] the payload
    posted has the fields of the request's body. *)
Theorem plain_answer_is_handed_back (U : upstream)
    (stream : stream_request -> stream_reply)
    (environ : list (string * string)) (note : string)
    (payload p2 : list (string * json)) (resolved : json) (w w1 : world)
    (r : response) :
  let default_model :=
    getenv environ "DEFAULT_MODEL" "Qwen/Qwen2.5-7B-Instruct" in
  let w2 := {| registry := registry w1;
               log := EvPost (chat_url environ) (JObj p2) :: log w1 |} in
  truthy (dict_get_default "stream" (JBool false) payload) = false ->
  resolve_model U (dict_get "model" payload) (JStr default_model) w
  = (Ret resolved, w1) ->
  inject_policy environ note (apply_resolved resolved default_model payload)
  = Ret p2 ->
  serve U (log w2) = Answered r ->
  plain_answer r ->
  chat_completions U stream environ note (JObj payload) w
  = (Ret (JSONResponse
            match body_json r with
            | Some content => content
            | None => JObj [("raw", JStr (text r))]
            end (status_code r)), w2) /\
  count_posts (log w2) = S (count_posts (log w)) /\
  (forall k, k <> "model"%string -> k <> "messages"%string ->
             lookup k p2 = lookup k payload).
Proof.
  intros default_model w2 Hflag Hr Hpol Hserve Hplain.
  destruct (chat_completions_eq U stream environ note payload w)
    as (resolved' & w1' & Hr' & Hquiet & Heq).
  fold default_model in Hr', Heq. rewrite Hr in Hr'.
  injection Hr' as <- <-. rewrite Hpol in Heq.
  rewrite (stream_flag_kept _ _ _ _ _ _ Hpol), Hflag in Heq.
  split; [|split].
  - rewrite Heq. unfold buffered, bind, http_post, bind, do_event, answer.
    fold (chat_url environ). cbn [fst snd log registry].
    change {| registry := registry w1;
              log := EvPost (chat_url environ) (JObj p2) :: log w1 |} with w2.
    change (EvPost (chat_url environ) (JObj p2) :: log w1) with (log w2).
    rewrite Hserve.
    assert (Hemit : emit r
                    = JSONResponse
                        match body_json r with
                        | Some content => content
                        | None => JObj [("raw", JStr (text r))]
                        end (status_code r)).
    { unfold emit. destruct (body_json r); reflexivity. }
    destruct (status_code r =? 404)%Z eqn:E404.
    + apply Z.eqb_eq in E404.
      change (match body_json r with Some j => j | None => JNull end)
        with (resp_json_of r).
      unfold maybe_retry_on_model_404. rewrite E404. cbn [Z.eqb Pos.eqb negb].
      unfold bind at 2, lift.
      rewrite (not_found_on_plain_answer r E404 Hplain).
      unfold bind, ret. cbn [negb truthy andb]. now rewrite Hemit, E404.
    + unfold ret. now rewrite Hemit.
  - subst w2. cbn [log]. rewrite count_posts_cons_post.
    now rewrite (no_post_count _ _ Hquiet).
  - intros k Hm Hs.
    rewrite (inject_policy_frame _ _ _ _ Hpol) by assumption.
    destruct (apply_resolved_spec resolved default_model payload)
      as (_ & _ & Hframe).
    now apply Hframe.
Qed.

Lemma plain_answer_is_handed_back_witness :
  fst (chat_completions
         (Samples.serving {| status_code := 404; text := "Not Found";
                             body_json := None |})
         (fun _ => NoConnection) [("FORCE_JA", "0")] ""
         (JObj [("model", JStr "x")]) (Samples.world_with [] 0))
  = Ret (JSONResponse (JObj [("raw", JStr "Not Found")]) 404).
Proof.
  pose proof (fun p2 resolved =>
                plain_answer_is_handed_back
                  (Samples.serving {| status_code := 404; text := "Not Found";
                                      body_json := None |})
                  (fun _ => NoConnection) [("FORCE_JA", "0")] ""
                  [("model", JStr "x")] p2 resolved
                  (Samples.world_with [] 0)) as H.
  edestruct H
    as (Heq & _);
    [reflexivity | reflexivity | reflexivity | reflexivity | | ].
  - right. left. reflexivity.
  - rewrite Heq. reflexivity.
Defined.

End RouterMore.

(** ** More on concurrent calls of [refresh] *)

Module GateMore.
Import Py Eff Registry Gate Spec RegistryFacts GateFacts RegistryMore.
Local Open Scope list_scope.
Local Open Scope nat_scope.

Lemma attempts_le_bound (reg : ModelRegistry) (f : bool) :
  attempts reg f <= rounds_bound reg.
Proof. unfold attempts, rounds_bound. destruct f; lia. Qed.

Lemma rounds_bound_config (r r' : ModelRegistry) :
  same_config r r' -> rounds_bound r' = rounds_bound r.
Proof. intros (_ & _ & H & _). unfold rounds_bound. now rewrite H. Qed.

Lemma set_task_force (i : nat) (t : task) (p : pc) (ts : list task) :
  nth_error ts i = Some t ->
  map force (set_task i {| force := force t; at_pc := p |} ts) = map force ts.
Proof.
  revert i. induction ts as [|t0 ts IH]; intros [|i] H; simpl in *;
    try discriminate.
  - now injection H as ->.
  - now rewrite IH.
Qed.

Lemma total_calls_of (f : pc -> nat) (fs : list bool) :
  total f (map (fun b => {| force := b; at_pc := Called |}) fs)
  = List.length fs * f Called.
Proof.
  unfold total. induction fs as [|b fs IH]; simpl; [reflexivity|].
  rewrite IH. reflexivity.
Qed.

Lemma total_flight_some (ts : list task) :
  1 <= total flight ts ->
  exists i t, nth_error ts i = Some t /\ flight (at_pc t) = 1.
Proof.
  unfold total. induction ts as [|t ts IH]; simpl; [lia|].
  intros H. destruct (flight (at_pc t)) as [|[|k]] eqn:E.
  - destruct IH as (i & t' & Hn & Hf); [lia|]. now exists (S i), t'.
  - now exists 0, t.
  - exfalso. destruct (at_pc t); discriminate.
Qed.

Lemma unfinished_some (ts : list task) :
  forallb finished ts = false ->
  exists i t, nth_error ts i = Some t /\ finished t = false.
Proof.
  induction ts as [|t ts IH]; simpl; [discriminate|].
  destruct (finished t) eqn:E; simpl.
  - intros H. destruct (IH H) as (i & t' & Hn & Hf). now exists (S i), t'.
  - intros _. now exists 0, t.
Qed.

Lemma total_flight_other (ts : list task) :
  forall i j t t',
    total flight ts <= 1 ->
    nth_error ts i = Some t -> nth_error ts j = Some t' -> j <> i ->
    flight (at_pc t) = 1 -> flight (at_pc t') = 0.
Proof.
  induction ts as [|t0 ts IH]; intros i j t t' Hle Hi Hj Hne Hf.
  - destruct i; discriminate.
  - assert (Hsplit : total flight (t0 :: ts)
                     = flight (at_pc t0) + total flight ts) by reflexivity.
    destruct i as [|i], j as [|j]; simpl in Hi, Hj.
    + contradiction.
    + injection Hi as ->. apply nth_error_In in Hj.
      pose proof (total_in flight t' ts Hj). lia.
    + injection Hj as ->. apply nth_error_In in Hi.
      pose proof (total_in flight t ts Hi). lia.
    + apply (IH i j t t'); try assumption; [lia | congruence].
Qed.

Lemma not_started_some (ts : list task) :
  existsb not_started ts = true ->
  exists i t, nth_error ts i = Some t /\ at_pc t = Called.
Proof.
  intros H. apply existsb_exists in H. destruct H as (t & Hin & Hs).
  apply In_nth_error in Hin. destruct Hin as [i Hi].
  exists i, t. split; [assumption|]. unfold not_started in Hs.
  destruct (at_pc t); try discriminate. reflexivity.
Qed.

Lemma not_started_none (ts : list task) (j : nat) (t : task) :
  existsb not_started ts = false ->
  nth_error ts j = Some t -> at_pc t <> Called.
Proof.
  intros H Hj Hc. apply nth_error_In in Hj.
  assert (Ht : existsb not_started ts = true).
  { apply existsb_exists. exists t. split; [assumption|].
    unfold not_started. now rewrite Hc. }
  congruence.
Qed.

Section AnyUpstream.
Variable U : upstream.

Lemma fresh_and_unforced_quiet (f : bool) (w : world) :
  exists b w',
    fresh_and_unforced U f w = (Ret b, w') /\
    registry w' = registry w /\
    count_gets (log w') = count_gets (log w).
Proof.
  destruct (fresh_and_unforced_reads U f w) as (b & pre & E & Hpre).
  eexists b, _. split; [exact E|]. split; [reflexivity|].
  destruct Hpre as [-> | ->]; reflexivity.
Qed.

Lemma start_round_any (n : nat) (last_exc : option exn) (w w' : world)
    (p : pc) (lk' : bool) :
  start_round U n last_exc w = (p, lk', w') ->
  registry w' = registry w /\
  ((p = Returned /\ lk' = false /\ n = 0 /\
    count_gets (log w') = count_gets (log w)) \/
   (exists m, n = S m /\ p = Fetching m (serve U (log (after_get w))) /\
              lk' = true /\ w' = after_get w)).
Proof.
  destruct n as [|m]; simpl.
  - destruct last_exc as [e|]; intros [= <- <- <-]; split; try reflexivity;
      left; repeat split.
  - intros [= <- <- <-]. split; [reflexivity|]. right. now exists m.
Qed.

Lemma enter_any (f : bool) (w w' : world) (p : pc) (lk' : bool) :
  enter U f w = (p, lk', w') ->
  registry w' = registry w /\
  ((p = Returned /\ lk' = false /\
    count_gets (log w') = count_gets (log w)) \/
   (exists m rep, attempts (registry w) f = S m /\ p = Fetching m rep /\
                  lk' = true /\
                  count_gets (log w') = S (count_gets (log w)))).
Proof.
  unfold enter.
  destruct (fresh_and_unforced_quiet f w) as (b & w1 & -> & Hreg & Hg).
  destruct b.
  - intros [= <- <- <-]. split; [assumption|]. left. repeat split.
    assumption.
  - intros H. apply start_round_any in H. destruct H as (Hreg' & H).
    split; [congruence|].
    destruct H as [(-> & -> & _ & Hg') | (m & Hm & -> & -> & ->)].
    + left. repeat split. congruence.
    + right. exists m, (serve U (log (after_get w1))).
      rewrite <- Hreg. repeat split; try assumption.
      unfold after_get. cbn [log]. rewrite count_gets_cons. simpl. lia.
Qed.

Lemma fetched_any (f : bool) (more : nat) (rep : reply) (w w' : world)
    (p : pc) (lk' : bool) :
  fetched U f more rep w = (p, lk', w') ->
  same_config (registry w) (registry w') /\
  ((p = Returned /\ lk' = false /\
    count_gets (log w') = count_gets (log w)) \/
   (exists e, p = Sleeping more e /\ lk' = true /\
              count_gets (log w') = count_gets (log w)) \/
   (exists m rep', more = S m /\ p = Fetching m rep' /\ lk' = true /\
                   count_gets (log w') = S (count_gets (log w)))).
Proof.
  unfold fetched.
  destruct (match rep with
            | Answered r => parse_models r
            | Unreachable => Raise TransportError
            end) as [ids|e].
  - destruct (truthy (JArr ids)).
    + simpl. intros [= <- <- <-]. split; [repeat split|].
      left. repeat split.
    + intros [= <- <- <-]. split; [apply same_config_refl|].
      left. repeat split.
  - destruct f.
    + intros [= <- <- <-]. split; [apply same_config_refl|].
      right. left. exists e. repeat split.
    + intros H. apply start_round_any in H. destruct H as (Hreg & H).
      split; [rewrite Hreg; apply same_config_refl|].
      destruct H as [(-> & -> & _ & Hg) | (m & -> & -> & -> & ->)].
      * left. repeat split. assumption.
      * right. right. eexists m, _. repeat split.
Qed.

(** One resumption of any call. *)
Lemma resume_any (R : nat) (t : task) (lk lk' : bool) (w w' : world)
    (p : pc) :
  attempts (registry w) (force t) <= R ->
  (flight (at_pc t) = 1 -> lk = true) ->
  (forall e, at_pc t <> Raised e) ->
  resume_task U t lk w = Some (p, lk', w') ->
  same_config (registry w) (registry w') /\
  (forall e, p <> Raised e) /\
  Nat.b2n lk' + flight (at_pc t) = Nat.b2n lk + flight p /\
  fuel R p < fuel R (at_pc t) /\
  count_gets (log w') + gets_left R p
  <= count_gets (log w) + gets_left R (at_pc t).
Proof.
  intros HR Hlk Hnr Hres. unfold resume_task in Hres.
  assert (Henter : forall w0 p0 lk0 w0',
            registry w0 = registry w ->
            count_gets (log w0) = count_gets (log w) ->
            enter U (force t) w0 = (p0, lk0, w0') ->
            same_config (registry w) (registry w0') /\
            (forall e, p0 <> Raised e) /\
            Nat.b2n lk0 = flight p0 /\
            fuel R p0 < 2 * R + 1 /\
            count_gets (log w0') + gets_left R p0
            <= count_gets (log w) + R).
  { intros w0 p0 lk0 w0' Hreg Hg H. apply enter_any in H.
    destruct H as (Hreg' & H). rewrite Hreg in *.
    split; [rewrite Hreg'; apply same_config_refl|].
    destruct H as [(-> & -> & Hg') | (m & rep & Hm & -> & -> & Hg')].
    - repeat split; try discriminate; simpl; lia.
    - repeat split; try discriminate; simpl; lia. }
  destruct (at_pc t) as [| | more rep | more e | | e] eqn:Hp.
  - (* called *)
    destruct (fresh_and_unforced_quiet (force t) w) as (b & w1 & E & Hreg & Hg).
    rewrite E in Hres. destruct b.
    + injection Hres as <- <- <-.
      split; [rewrite Hreg; apply same_config_refl|].
      repeat split; try discriminate; simpl; lia.
    + destruct lk.
      * injection Hres as <- <- <-.
        split; [rewrite Hreg; apply same_config_refl|].
        repeat split; try discriminate; simpl; lia.
      * injection Hres as Hres.
        destruct (Henter _ _ _ _ Hreg Hg Hres) as (H1 & H2 & H3 & H4 & H5).
        repeat split; try assumption; simpl; try apply H1; lia.
  - (* queued *)
    destruct lk; [discriminate|]. injection Hres as Hres.
    destruct (Henter _ _ _ _ eq_refl eq_refl Hres) as (H1 & H2 & H3 & H4 & H5).
    repeat split; try assumption; simpl; try apply H1; lia.
  - (* the answer has arrived *)
    injection Hres as Hres. rewrite (Hlk eq_refl).
    apply fetched_any in Hres. destruct Hres as (Hcfg & H).
    split; [assumption|].
    destruct H as [(-> & -> & Hg) | [(e & -> & -> & Hg)
                                    | (m & rep' & -> & -> & -> & Hg)]];
      repeat split; try discriminate; simpl; lia.
  - (* the sleep is over *)
    injection Hres as Hres. rewrite (Hlk eq_refl).
    apply start_round_any in Hres. destruct Hres as (Hreg & H).
    split; [rewrite Hreg; apply same_config_refl|].
    destruct H as [(-> & -> & -> & Hg) | (m & -> & -> & -> & ->)];
      repeat split; try discriminate; simpl; try lia.
    unfold count_gets. lia.
  - discriminate.
  - discriminate.
Qed.

Lemma orderly_calls_of (fs : list bool) (w : world) :
  orderly w fs (calls_of fs w).
Proof.
  unfold orderly, calls_of. cbn [tasks shared locked].
  split; [|split; [|split]].
  - rewrite map_map. simpl. apply map_id.
  - apply same_config_refl.
  - intros t e Ht. apply in_map_iff in Ht. destruct Ht as (b & <- & _).
    discriminate.
  - rewrite total_calls_of. simpl. lia.
Qed.

(** One resumption keeps the order, takes fuel, and pays for its GET. *)
Lemma resume_orderly (w0 : world) (fs : list bool) (st st' : state)
    (i : nat) :
  let R := rounds_bound (registry w0) in
  orderly w0 fs st ->
  resume U st i = Some st' ->
  orderly w0 fs st' /\
  total (fuel R) (tasks st') < total (fuel R) (tasks st) /\
  count_gets (log (shared st')) + total (gets_left R) (tasks st')
  <= count_gets (log (shared st)) + total (gets_left R) (tasks st).
Proof.
  intros R (Hfs & Hcfg & Hnr & Hlock) Hres. unfold resume in Hres.
  destruct (nth_error (tasks st) i) as [t|] eqn:Hnth; [|discriminate].
  destruct (resume_task U t (locked st) (shared st))
    as [[[p lk'] w']|] eqn:Hrt; [|discriminate].
  injection Hres as <-.
  pose proof (nth_error_In _ _ Hnth) as Hin.
  assert (HR : attempts (registry (shared st)) (force t) <= R).
  { unfold R. rewrite <- (rounds_bound_config _ _ Hcfg).
    apply attempts_le_bound. }
  assert (Hlk : flight (at_pc t) = 1 -> locked st = true).
  { intros H1. pose proof (total_in flight t _ Hin) as Hle.
    rewrite Hlock, H1 in Hle. destruct (locked st); [reflexivity|].
    simpl in Hle. lia. }
  destruct (resume_any R t _ _ _ _ _ HR Hlk (fun e => Hnr t e Hin) Hrt)
    as (Hcfg' & Hnr' & Hl' & Hfuel & Hgets).
  set (t' := {| force := force t; at_pc := p |}).
  pose proof (total_set_task flight i t t' _ Hnth) as Hsl.
  pose proof (total_set_task (fuel R) i t t' _ Hnth) as Hsf.
  pose proof (total_set_task (gets_left R) i t t' _ Hnth) as Hsg.
  cbn [tasks shared locked]. split; [|split].
  - unfold orderly. cbn [tasks shared locked]. split; [|split; [|split]].
    + subst t'. now rewrite set_task_force.
    + eapply same_config_trans; eassumption.
    + intros t0 e H0. apply set_task_in in H0. destruct H0 as [-> | H0].
      * apply Hnr'.
      * now apply Hnr.
    + subst t'. simpl in *. lia.
  - subst t'. simpl in *. lia.
  - subst t'. simpl in *. lia.
Qed.

Lemma orderly_reachable (w0 : world) (fs : list bool) (st st' : state) :
  orderly w0 fs st -> reachable U st st' ->
  orderly w0 fs st' /\
  count_gets (log (shared st'))
  + total (gets_left (rounds_bound (registry w0))) (tasks st')
  <= count_gets (log (shared st))
     + total (gets_left (rounds_bound (registry w0))) (tasks st).
Proof.
  intros H Hr. induction Hr as [|st1 st2 [i Hstep] _ [IH1 IH2]].
  - split; [assumption | lia].
  - destruct (resume_orderly w0 fs st1 st2 i IH1 Hstep) as (H1 & _ & H2).
    split; [assumption | lia].
Qed.

Lemma run_orderly (w0 : world) (fs : list bool) (sched : list nat) :
  forall st st',
    orderly w0 fs st -> run U sched st = Some st' ->
    total (fuel (rounds_bound (registry w0))) (tasks st') + List.length sched
    <= total (fuel (rounds_bound (registry w0))) (tasks st).
Proof.
  induction sched as [|i sched IH]; intros st st' Hord Hrun; simpl in Hrun.
  - injection Hrun as <-. simpl. lia.
  - destruct (resume U st i) as [st1|] eqn:Hres; [|discriminate].
    destruct (resume_orderly w0 fs st st1 i Hord Hres) as (H1 & H2 & _).
    specialize (IH _ _ H1 Hrun). simpl. lia.
Qed.

(** A call that is not at its GET or its sleep, and can go on at once:
    one not yet run, or one that waits for a lock that is free. *)
Lemma resume_ready (st : state) (i : nat) (t : task) :
  nth_error (tasks st) i = Some t ->
  at_pc t = Called \/ (at_pc t = Queued /\ locked st = false) ->
  exists st', resume U st i = Some st'.
Proof.
  intros Hn Hp. unfold resume. rewrite Hn. unfold resume_task.
  destruct Hp as [-> | [-> ->]].
  - destruct (fresh_and_unforced_quiet (force t) (shared st))
      as (b & w1 & -> & _).
    destruct b; [now eexists|].
    destruct (locked st); [now eexists|].
    destruct (enter U (force t) w1) as [[p lk'] w']. now eexists.
  - destruct (enter U (force t) (shared st)) as [[p lk'] w']. now eexists.
Qed.

(** A call at its GET or its sleep goes on when that is over. *)
Lemma resume_in_flight (st : state) (i : nat) (t : task) :
  nth_error (tasks st) i = Some t -> in_flight t = true ->
  exists st', resume U st i = Some st'.
Proof.
  intros Hn Hf. unfold resume. rewrite Hn. unfold resume_task.
  unfold in_flight in Hf.
  destruct (at_pc t) as [| | more rep | more e | | e]; try discriminate.
  - destruct (fetched U (force t) more rep (shared st)) as [[p lk'] w'].
    now eexists.
  - destruct (start_round U more (Some e) (shared st)) as [[p lk'] w'].
    now eexists.
Qed.

End AnyUpstream.

(** X19. The lock of [refresh], whatever the upstream does and whatever
    mix of forced and unforced calls runs, in any order: at any time at most
    one call is between its GET and the end of its rounds, and the lock is
    held exactly then; when all calls have ended the lock is free; no call
    ever raises; and the settings of the registry are as at the start. *)
Theorem lock_is_held_by_one_call (U : upstream) (fs : list bool) (w : world)
    (st : state) :
  reachable U (calls_of fs w) st ->
  total flight (tasks st) = Nat.b2n (locked st) /\
  total flight (tasks st) <= 1 /\
  (all_finished st = true -> locked st = false) /\
  (forall t e, In t (tasks st) -> at_pc t <> Raised e) /\
  map force (tasks st) = fs /\
  same_config (registry w) (registry (shared st)).
Proof.
  intros Hr.
  destruct (orderly_reachable U w fs _ _ (orderly_calls_of fs w) Hr)
    as ((Hfs & Hcfg & Hnr & Hlock) & _).
  split; [assumption|].
  split; [|split; [|split; [exact Hnr | split; [exact Hfs | exact Hcfg]]]].
  - rewrite Hlock. destruct (locked st); simpl; lia.
  - intros Hfin. destruct (locked st); [|reflexivity]. exfalso.
    destruct (total_flight_some (tasks st)) as (i & t & Hn & Hf);
      [rewrite Hlock; simpl; lia|].
    apply nth_error_In in Hn. unfold all_finished in Hfin.
    rewrite forallb_forall in Hfin. specialize (Hfin t Hn).
    unfold finished in Hfin. destruct (at_pc t); discriminate.
Qed.

Lemma lock_is_held_by_one_call_witness :
  exists st,
    run Samples.quiet [0; 1; 0] (calls_of [true; false] (Samples.world_with [] 0))
    = Some st /\
    locked st = true /\ total flight (tasks st) = 1.
Proof.
  eexists. split; [reflexivity|]. split; [reflexivity|].
  match goal with
  | |- total flight (tasks ?s) = 1 =>
      assert (Hr : reachable Samples.quiet
                     (calls_of [true; false] (Samples.world_with [] 0)) s)
        by (apply (run_reachable Samples.quiet [0; 1; 0]); reflexivity);
      destruct (lock_is_held_by_one_call Samples.quiet [true; false]
                  (Samples.world_with [] 0) s Hr) as (H & _)
  end.
  rewrite H. reflexivity.
Defined.

(** X20. Calls of [refresh] never wait on one another for a reason of
    their own.  In any state they can reach, while some call has not ended:
    either a call that is not at its GET or its sleep can go on at once (one
    not yet run, or one that waits for a lock that is free); or the lock is
    held by a call that is at its GET or its sleep, which goes on as soon as
    that GET or sleep is over, and every other call has ended or waits for
    the lock.  So the calls are held up for good only when a GET of the
    listing never completes, and only the call that made it holds the
    lock then. *)
Theorem calls_wait_only_for_the_upstream (U : upstream) (fs : list bool)
    (w : world) (st : state) :
  reachable U (calls_of fs w) st ->
  all_finished st = false ->
  (exists i t st',
     nth_error (tasks st) i = Some t /\ in_flight t = false /\
     resume U st i = Some st') \/
  (locked st = true /\
   exists i t st',
     nth_error (tasks st) i = Some t /\ in_flight t = true /\
     resume U st i = Some st' /\
     forall j t',
       nth_error (tasks st) j = Some t' -> j <> i ->
       at_pc t' = Queued \/ finished t' = true).
Proof.
  intros Hr Hfin.
  destruct (orderly_reachable U w fs _ _ (orderly_calls_of fs w) Hr)
    as ((_ & _ & _ & Hlock) & _).
  destruct (existsb not_started (tasks st)) eqn:Hns.
  - (* a call that has not run yet *)
    left. destruct (not_started_some _ Hns) as (i & t & Hn & Hc).
    destruct (resume_ready U st i t Hn (or_introl Hc)) as [st' Hres].
    exists i, t, st'. split; [assumption|]. split; [|assumption].
    unfold in_flight. now rewrite Hc.
  - destruct (locked st) eqn:Hl.
    + (* the lock is held: by the one call at its GET or its sleep *)
      right. split; [reflexivity|].
      destruct (total_flight_some (tasks st)) as (i & t & Hn & Hf);
        [rewrite Hlock; simpl; lia|].
      assert (Hin : in_flight t = true).
      { unfold in_flight. destruct (at_pc t); try discriminate; reflexivity. }
      destruct (resume_in_flight U st i t Hn Hin) as [st' Hres].
      exists i, t, st'. split; [assumption|]. split; [assumption|].
      split; [assumption|].
      intros j t' Hj Hne.
      assert (H0 : flight (at_pc t') = 0).
      { apply (total_flight_other (tasks st) i j t t'); try assumption.
        rewrite Hlock. simpl. lia. }
      pose proof (not_started_none _ j t' Hns Hj) as Hnc.
      unfold finished.
      destruct (at_pc t'); try discriminate; auto; contradiction.
    + (* the lock is free: a call that waits for it *)
      left. destruct (unfinished_some _ Hfin) as (i & t & Hn & Hf).
      assert (H0 : flight (at_pc t) = 0).
      { pose proof (total_in flight t _ (nth_error_In _ _ Hn)) as Hle.
        rewrite Hlock in Hle. simpl in Hle. lia. }
      pose proof (not_started_none _ i t Hns Hn) as Hnc.
      assert (Hq : at_pc t = Queued).
      { unfold finished in Hf.
        destruct (at_pc t); try discriminate; try contradiction.
        reflexivity. }
      destruct (resume_ready U st i t Hn (or_intror (conj Hq Hl)))
        as [st' Hres].
      exists i, t, st'. split; [assumption|]. split; [|assumption].
      unfold in_flight. now rewrite Hq.
Qed.

Lemma calls_wait_only_for_the_upstream_witness :
  exists st,
    run Samples.quiet [0; 1] (calls_of [true; true] (Samples.world_with [] 0))
    = Some st /\
    locked st = true /\
    exists i t st',
      nth_error (tasks st) i = Some t /\ in_flight t = true /\
      resume Samples.quiet st i = Some st' /\
      forall j t',
        nth_error (tasks st) j = Some t' -> j <> i ->
        at_pc t' = Queued \/ finished t' = true.
Proof.
  destruct (run Samples.quiet [0; 1]
              (calls_of [true; true] (Samples.world_with [] 0)))
    as [st|] eqn:Hrun; [|vm_compute in Hrun; discriminate].
  exists st. split; [reflexivity|].
  pose proof (run_reachable Samples.quiet _ _ _ Hrun) as Hr.
  vm_compute in Hrun. injection Hrun as <-.
  destruct (calls_wait_only_for_the_upstream Samples.quiet [true; true]
              (Samples.world_with [] 0) _ Hr eq_refl)
    as [(i & t & st' & Hn & Hf & Hres) | H].
  - exfalso. destruct i as [|[|i]]; simpl in Hn.
    + injection Hn as <-. vm_compute in Hf. discriminate.
    + vm_compute in Hres. discriminate.
    + destruct i; discriminate.
  - exact H.
Defined.

(** X21. However the loop resumes them, [n] calls of [refresh] take at most
    [n * (2 * max(1, retries) + 2)] resumptions in all, and make at most
    [n * max(1, retries)] GETs of the listing in all, whatever the upstream
    answers. *)
Theorem calls_stay_within_budget (U : upstream) (fs : list bool) (w : world)
    (sched : list nat) (st : state) :
  let R := rounds_bound (registry w) in
  run U sched (calls_of fs w) = Some st ->
  List.length sched <= List.length fs * (2 * R + 2) /\
  count_gets (log (shared st)) <= count_gets (log w) + List.length fs * R.
Proof.
  intros R Hrun. split.
  - pose proof (run_orderly U w fs sched _ _ (orderly_calls_of fs w) Hrun)
      as H.
    unfold calls_of in H. cbn [tasks] in H.
    rewrite total_calls_of in H. fold R in H. simpl in H. lia.
  - destruct (orderly_reachable U w fs _ _ (orderly_calls_of fs w)
                (run_reachable U _ _ _ Hrun)) as (_ & H).
    unfold calls_of in H. cbn [tasks shared] in H.
    rewrite total_calls_of in H. fold R in H. simpl in H. lia.
Qed.

Lemma calls_stay_within_budget_witness :
  exists st,
    run Samples.quiet [0; 1; 0] (calls_of [true; false] (Samples.world_with [] 0))
    = Some st /\
    count_gets (log (shared st)) <= 20.
Proof.
  eexists. split; [reflexivity|].
  apply (calls_stay_within_budget Samples.quiet [true; false]
           (Samples.world_with [] 0) [0; 1; 0]).
  reflexivity.
Defined.

(** *** Calls that are not forced share one fetch *)

Lemma calls_as_calls_of (f : bool) (n : nat) (w : world) :
  calls f n w = calls_of (repeat f n) w.
Proof. unfold calls, calls_of. now rewrite map_repeat. Qed.

Section Unforced.
Variable U : upstream.
Hypothesis Hlists : always_lists U.

Lemma fresh_check_unforced (w : world) :
  (0 < ttl_sec (registry w))%Z ->
  fresh_and_unforced U false w
  = (Ret (clock U (log w) - _last_fetch (registry w)
          <? ttl_sec (registry w))%Z,
     {| registry := registry w; log := EvTime :: log w |}).
Proof.
  intros H.
  unfold fresh_and_unforced, _is_fresh, bind, get_registry, ret, time_time.
  cbn [negb].
  destruct (Z.leb_spec (ttl_sec (registry w)) 0); [lia | reflexivity].
Qed.

Lemma enter_unforced (w w' : world) (p : pc) (lk' : bool) :
  (0 < ttl_sec (registry w))%Z ->
  enter U false w = (p, lk', w') ->
  registry w' = registry w /\ listed p /\
  ((p = Returned /\ lk' = false /\
    count_gets (log w') = count_gets (log w) /\
    exists l,
      (clock U l - _last_fetch (registry w) < ttl_sec (registry w))%Z) \/
   (flight p = 1 /\ lk' = true /\
    count_gets (log w') = S (count_gets (log w)) /\
    exists l,
      (ttl_sec (registry w) <= clock U l - _last_fetch (registry w))%Z)).
Proof.
  intros Httl. unfold enter. rewrite (fresh_check_unforced w Httl).
  destruct (Z.ltb_spec (clock U (log w) - _last_fetch (registry w))
              (ttl_sec (registry w))) as [Hlt | Hge].
  - intros [= <- <- <-]. split; [reflexivity|]. split; [exact I|].
    left. repeat split. now exists (log w).
  - change (attempts _ false) with 1. cbn [start_round].
    intros [= <- <- <-]. split; [reflexivity|]. split.
    + simpl.
      match goal with
      | |- context [serve U ?l] =>
          destruct (Hlists l) as (r & ids & -> & Hids & Hne)
      end.
      now exists r, ids.
    + right. repeat split. now exists (log w).
Qed.

(** One resumption of a call that is not forced. *)
Lemma resume_unforced (t : task) (lk lk' : bool) (w w' : world) (p : pc) :
  force t = false -> listed (at_pc t) ->
  (0 < ttl_sec (registry w))%Z ->
  (flight (at_pc t) = 1 -> lk = true) ->
  resume_task U t lk w = Some (p, lk', w') ->
  listed p /\
  Nat.b2n lk' + flight (at_pc t) = Nat.b2n lk + flight p /\
  ttl_sec (registry w') = ttl_sec (registry w) /\
  ((p = Returned /\ lk' = lk /\ registry w' = registry w /\
    count_gets (log w') = count_gets (log w) /\
    exists l,
      (clock U l - _last_fetch (registry w) < ttl_sec (registry w))%Z) \/
   (p = Queued /\ lk = true /\ lk' = true /\ registry w' = registry w /\
    count_gets (log w') = count_gets (log w)) \/
   (lk = false /\ lk' = true /\ registry w' = registry w /\
    count_gets (log w') = S (count_gets (log w)) /\
    exists l,
      (ttl_sec (registry w) <= clock U l - _last_fetch (registry w))%Z) \/
   (p = Returned /\ lk = true /\ lk' = false /\
    count_gets (log w') = count_gets (log w) /\
    exists l ids,
      ids <> [] /\ registry w' = with_cache (registry w) ids (clock U l))).
Proof.
  intros Hf Hl Httl Hlk Hres. unfold resume_task in Hres. rewrite Hf in Hres.
  assert (Henter : forall w1,
            registry w1 = registry w ->
            count_gets (log w1) = count_gets (log w) ->
            lk = false ->
            flight (at_pc t) = 0 ->
            enter U false w1 = (p, lk', w') ->
            listed p /\
            Nat.b2n lk' + flight (at_pc t) = Nat.b2n lk + flight p /\
            ttl_sec (registry w') = ttl_sec (registry w) /\
            ((p = Returned /\ lk' = lk /\ registry w' = registry w /\
              count_gets (log w') = count_gets (log w) /\
              exists l,
                (clock U l - _last_fetch (registry w)
                 < ttl_sec (registry w))%Z) \/
             (p = Queued /\ lk = true /\ lk' = true /\
              registry w' = registry w /\
              count_gets (log w') = count_gets (log w)) \/
             (lk = false /\ lk' = true /\ registry w' = registry w /\
              count_gets (log w') = S (count_gets (log w)) /\
              exists l,
                (ttl_sec (registry w)
                 <= clock U l - _last_fetch (registry w))%Z) \/
             (p = Returned /\ lk = true /\ lk' = false /\
              count_gets (log w') = count_gets (log w) /\
              exists l ids,
                ids <> [] /\
                registry w' = with_cache (registry w) ids (clock U l)))).
  { intros w1 Hreg Hg Hlk0 Hfl He. apply enter_unforced in He;
      [|rewrite Hreg; assumption].
    destruct He as (Hreg' & Hl' & He). rewrite Hreg in *.
    split; [assumption|]. rewrite Hfl, Hlk0.
    destruct He as [(-> & -> & Hg' & l & Hfresh)
                   | (Hfp & -> & Hg' & l & Hstale)].
    - split; [reflexivity|]. split; [now rewrite Hreg'|].
      left. repeat split; try congruence. now exists l.
    - split; [simpl; lia|]. split; [now rewrite Hreg'|].
      right. right. left. repeat split; try congruence. now exists l. }
  destruct (at_pc t) as [| | more rep | more e | | e] eqn:Hp;
    simpl in Hl; try contradiction; try discriminate.
  - (* called *)
    rewrite (fresh_check_unforced w Httl) in Hres.
    destruct (Z.ltb_spec (clock U (log w) - _last_fetch (registry w))
                (ttl_sec (registry w))) as [Hlt | Hge].
    + injection Hres as <- <- <-. split; [exact I|].
      split; [reflexivity|]. split; [reflexivity|].
      left. repeat split. now exists (log w).
    + destruct lk.
      * injection Hres as <- <- <-. split; [exact I|].
        split; [reflexivity|]. split; [reflexivity|].
        right. left. repeat split.
      * injection Hres as Hres.
        eapply Henter; [| | | | exact Hres]; reflexivity.
  - (* queued *)
    destruct lk; [discriminate|]. injection Hres as Hres.
    eapply Henter; [| | | | exact Hres]; reflexivity.
  - (* the listing has arrived *)
    rewrite (Hlk eq_refl) in *. destruct Hl as (r & ids & -> & Hids & Hne).
    injection Hres as Hres. unfold fetched in Hres. rewrite Hids in Hres.
    destruct ids as [|i ids]; [contradiction|].
    cbv beta iota zeta delta [truthy time_time set_models set_last_fetch
                              snd] in Hres.
    cbn [registry log] in Hres.
    injection Hres as <- <- <-. split; [exact I|].
    split; [reflexivity|]. split; [reflexivity|].
    right. right. right. repeat split.
    exists (log w), (i :: ids). split; [discriminate | reflexivity].
Qed.

Variable w0 : world.
Variable t0 : Z.
Hypothesis Httl : (0 < ttl_sec (registry w0))%Z.
Hypothesis Hclock : clock_within U t0 (ttl_sec (registry w0)).

Lemma shared_fetch_calls (n : nat) : shared_fetch w0 t0 (calls false n w0).
Proof.
  unfold shared_fetch, calls. cbn [tasks shared locked].
  split; [|split; [|split]].
  - intros t Ht. apply repeat_spec in Ht. subst t. split; [reflexivity|].
    exact I.
  - unfold total. induction n; simpl; auto.
  - reflexivity.
  - left. repeat split. intros _ t Ht. apply repeat_spec in Ht. subst t.
    discriminate.
Qed.

Lemma shared_fetch_step (st st' : state) :
  shared_fetch w0 t0 st -> step U st st' -> shared_fetch w0 t0 st'.
Proof.
  intros (Hall & Hlock & Httl' & Hph) [i Hres]. unfold resume in Hres.
  destruct (nth_error (tasks st) i) as [t|] eqn:Hnth; [|discriminate].
  destruct (resume_task U t (locked st) (shared st))
    as [[[p lk'] w']|] eqn:Hrt; [|discriminate].
  injection Hres as <-.
  pose proof (nth_error_In _ _ Hnth) as Hin.
  destruct (Hall t Hin) as [Hf Hl].
  assert (Hlk : flight (at_pc t) = 1 -> locked st = true).
  { intros H1. pose proof (total_in flight t _ Hin) as Hle.
    rewrite Hlock, H1 in Hle. destruct (locked st); [reflexivity|].
    simpl in Hle. lia. }
  assert (Httl1 : (0 < ttl_sec (registry (shared st)))%Z)
    by (rewrite Httl'; exact Httl).
  destruct (resume_unforced t _ _ _ _ _ Hf Hl Httl1 Hlk Hrt)
    as (Hl' & Hacc & Httl2 & Hout).
  set (t' := {| force := force t; at_pc := p |}).
  pose proof (total_set_task flight i t t' _ Hnth) as Hsl.
  unfold shared_fetch. cbn [tasks shared locked].
  assert (Hall' : forall t1, In t1 (set_task i t' (tasks st)) ->
                             force t1 = false /\ listed (at_pc t1)).
  { intros t1 H1. apply set_task_in in H1. destruct H1 as [-> | H1].
    - subst t'. simpl. auto.
    - auto. }
  split; [exact Hall'|].
  split; [subst t'; simpl in *; lia|].
  split; [congruence|].
  pose proof (Hclock) as Hwin. unfold clock_within in Hwin.
  destruct Hph as [(Hlk0 & Hreg & Hg & Hstale)
                  | [(Hlk1 & Hg) | (Hlk0 & Hg & Hlf & Hm)]];
    destruct Hout as [(Hp & Hlk' & Hreg' & Hg' & l & Hfresh)
                     | [(Hp & Hl1 & Hlk' & Hreg' & Hg')
                       | [(Hl0 & Hlk' & Hreg' & Hg' & l & Hst)
                         | (Hp & Hl1 & Hlk' & Hg' & l & ids & Hids & Hreg')]]];
    try congruence.
  - (* nothing fetched yet; the call found the cache fresh *)
    left. split; [congruence|]. split; [congruence|]. split; [congruence|].
    intros Hs. exfalso. rewrite Hreg in Hfresh. specialize (Hwin l). lia.
  - (* the fetch begins *)
    right. left. split; [assumption | congruence].
  - (* a fetch under way; the call found the cache fresh *)
    right. left. split; congruence.
  - (* a fetch under way; the call waits *)
    right. left. split; congruence.
  - (* the fetch ends *)
    right. right. split; [assumption|]. split; [congruence|].
    rewrite Hreg'. cbn [with_cache _last_fetch _models].
    split; [apply Hwin | assumption].
  - (* fetched; the call finds the cache fresh *)
    right. right. split; [congruence|]. split; [congruence|].
    rewrite Hreg'. split; assumption.
  - (* fetched; no call finds the cache stale *)
    exfalso. rewrite Httl' in Hst. specialize (Hwin l). lia.
Qed.

Lemma shared_fetch_reachable (st st' : state) :
  shared_fetch w0 t0 st -> reachable U st st' -> shared_fetch w0 t0 st'.
Proof.
  intros H Hr. induction Hr as [|st1 st2 Hstep _ IH]; [assumption|].
  eapply shared_fetch_step; eassumption.
Qed.

End Unforced.

Lemma serving_listing_always_lists (i : string) (ids : list string) :
  always_lists (Samples.serving (Samples.listing (i :: ids))).
Proof.
  intros l. eexists _, _. split; [reflexivity|]. split; [reflexivity|].
  discriminate.
Qed.

(** X22. Calls of [refresh] that are not forced share one fetch.  With a
    positive TTL, an upstream that always answers with a listing that is not
    empty, and a clock that stays within a window shorter than the TTL,
    [n] concurrent calls of [refresh(force=False)] make at most one GET of
    the listing in all, in whatever order the loop resumes them: a call
    that waited for the lock finds the cache fresh when it gets it.  When
    the cache was stale at the start, they make exactly one, and leave a
    cache that is not empty. *)
Theorem unforced_calls_share_a_fetch (U : upstream) (w : world) (n : nat)
    (t0 : Z) (st : state) :
  always_lists U ->
  (0 < ttl_sec (registry w))%Z ->
  clock_within U t0 (ttl_sec (registry w)) ->
  reachable U (calls false n w) st ->
  count_gets (log (shared st)) <= count_gets (log w) + 1 /\
  ((_last_fetch (registry w) + ttl_sec (registry w) <= t0)%Z ->
   0 < n -> all_finished st = true ->
   count_gets (log (shared st)) = count_gets (log w) + 1 /\
   _models (registry (shared st)) <> []).
Proof.
  intros Hlists Httl Hclock Hr.
  pose proof (shared_fetch_reachable U Hlists w t0 Httl Hclock _ _
                (shared_fetch_calls w t0 n) Hr)
    as (Hall & Hlock & _ & Hph).
  split.
  - destruct Hph as [(_ & _ & Hg & _) | [(_ & Hg) | (_ & Hg & _)]]; lia.
  - intros Hstale Hn Hfin.
    rewrite calls_as_calls_of in Hr.
    destruct (orderly_reachable U w _ _ _ (orderly_calls_of _ w) Hr)
      as ((Hfs & _) & _).
    assert (Hlen : List.length (tasks st) = n).
    { rewrite <- (length_map force), Hfs. apply repeat_length. }
    unfold all_finished in Hfin. rewrite forallb_forall in Hfin.
    destruct Hph as [(_ & _ & _ & Hnone) | [(Hlk & _) | (_ & Hg & _ & Hm)]].
    + exfalso. destruct (tasks st) as [|t ts] eqn:Ets; [simpl in Hlen; lia|].
      assert (Hin : In t (t :: ts)) by now left.
      specialize (Hfin t Hin). specialize (Hnone Hstale t Hin).
      destruct (Hall t Hin) as [_ Hl]. unfold finished in Hfin.
      destruct (at_pc t); simpl in Hl; try discriminate; contradiction.
    + exfalso. rewrite Hlk in Hlock.
      destruct (total_flight_some (tasks st)) as (i & t & Hnth & Hf);
        [rewrite Hlock; simpl; lia|].
      apply nth_error_In in Hnth. specialize (Hfin t Hnth).
      unfold finished in Hfin. destruct (at_pc t); discriminate.
    + split; [lia | assumption].
Qed.

Lemma unforced_calls_share_a_fetch_witness :
  exists st,
    run (Samples.serving (Samples.listing ["m1"])) [0; 1; 2; 0; 1; 2]
      (calls false 3 (Samples.world_with [] 0)) = Some st /\
    all_finished st = true /\
    count_gets (log (shared st)) = 1.
Proof.
  destruct (run (Samples.serving (Samples.listing ["m1"])) [0; 1; 2; 0; 1; 2]
              (calls false 3 (Samples.world_with [] 0))) as [st|] eqn:Hrun;
    [|vm_compute in Hrun; discriminate].
  exists st. split; [reflexivity|].
  pose proof (run_reachable _ _ _ _ Hrun) as Hr.
  vm_compute in Hrun. injection Hrun as <-.
  split; [reflexivity|].
  pose proof (fun Httl Hclock =>
                unforced_calls_share_a_fetch _ _ 3 100%Z _
                  (serving_listing_always_lists "m1" []) Httl Hclock Hr)
    as H.
  destruct H as (_ & H); [reflexivity | intros l; simpl; lia |].
  destruct H as [H _]; [simpl; lia | lia | reflexivity |].
  exact H.
Defined.

End GateMore.
